(** * SoulsTrackerAPI: the route handlers of [routes/api.js]

    A shallow embedding of the route handlers of the Express router: user
    profile, owned-games listing, playtime, boss-progress inference,
    achievement enrichment, and the appid dispatch that selects the static
    catalog files.  The handlers are modelled as functions from the
    already-deserialized upstream data to the outcome of the handler:
    either a response sent with [res.status(..).json(..)] or an exception
    caught by the handler's [catch] and handed to [next(err)]. *)

From Stdlib Require Import List String Ascii ZArith QArith Bool Lia.
From Stdlib Require Import DecimalString Permutation.
Import ListNotations.
Local Open Scope string_scope.
Local Open Scope Z_scope.

(** ** JavaScript values that reach [res.json] *)

#[local] Set Warnings "-register-all".

Inductive json : Type :=
| JNull
| JBool (b : bool)
| JNum (q : Q)
| JStr (s : string)
| JArr (items : list json)
| JObj (fields : list (string * json)).

(** An object literal may hold [undefined] under a key; [JSON.stringify]
    drops such a key.  [None] stands for [undefined]. *)
Definition obj (fields : list (string * option json)) : json :=
  JObj (flat_map (fun kv => match snd kv with
                            | Some v => [(fst kv, v)]
                            | None => []
                            end) fields).

(** ** Exceptions and handler outcomes *)

Inductive error : Type :=
| TypeError (msg : string)
| ModuleNotFound (path : string).

(** A computation that either completes with a value or throws. *)
Inductive completion (A : Type) : Type :=
| Return (a : A)
| Throw (e : error).
Arguments Return {A} a.
Arguments Throw {A} e.

Definition bind {A B} (m : completion A) (k : A -> completion B) : completion B :=
  match m with
  | Return a => k a
  | Throw e => Throw e
  end.

Notation "x <- m ;; k" := (bind m (fun x => k))
  (at level 61, m at next level, right associativity).

(** Reading property [prop] of a value that may be [undefined]. *)
Definition read_of {A} (prop : string) (v : option A) : completion A :=
  match v with
  | Some a => Return a
  | None =>
      Throw (TypeError
               ("Cannot read properties of undefined (reading '" ++ prop ++ "')"))
  end.

(** What a route handler ends with: a response, or [next(err)]. *)
Inductive outcome : Type :=
| Sent (status : Z) (body : json)
| Next (e : error).

(** [arr[i]] for a JavaScript number [i]: [undefined] out of range. *)
Definition js_index {A} (arr : list A) (i : Z) : option A :=
  if i <? 0 then None else nth_error arr (Z.to_nat i).

(** Truthiness of a JSON number such as [achieved]. *)
Definition truthy (n : Z) : bool := negb (n =? 0).

(** [s.includes(t)] on strings: [t] occurs in [s] as a substring. *)
Fixpoint str_includes (s t : string) : bool :=
  String.prefix t s ||
  match s with
  | EmptyString => false
  | String _ s' => str_includes s' t
  end.

(** ** Data model *)

(** A milestone's [apiname] is a string, or an array of strings for a
    milestone with several endings. *)
Inductive ApiName : Type :=
| Single (id : string)
| Branching (ids : list string).

Module Boss.
Record t : Type := mk { apiname : ApiName; name : string }.
End Boss.

Module Player.
Record t : Type := mk { apiname : string; achieved : Z; unlocktime : Z }.
End Player.

(** [achievement.apiname === boss.apiname]: a string is never strictly
    equal to an array. *)
Definition strict_eq (a : string) (b : ApiName) : bool :=
  match b with
  | Single id => String.eqb a id
  | Branching _ => false
  end.

(** [boss.apiname.includes(x)]: substring search on a string, membership
    on an array. *)
Definition includes (b : ApiName) (x : string) : bool :=
  match b with
  | Single id => str_includes id x
  | Branching ids => existsb (String.eqb x) ids
  end.

Definition apiname_json (a : ApiName) : json :=
  match a with
  | Single id => JStr id
  | Branching ids => JArr (map JStr ids)
  end.

(** A milestone object as [res.json] serializes it; the catalog files are
    not part of the router, the key order is the data model's. *)
Definition boss_json (b : Boss.t) : json :=
  JObj [("apiname", apiname_json (Boss.apiname b)); ("name", JStr (Boss.name b))].

(** ** Boss-progress inference: [GET /bosses/:steamid/:appid] *)

(** The body of the [for (const [index, boss] of bosses.entries())] loop
    and the statement after it.  [rest] is what remains to iterate and
    [index] the position of its head in [bosses]. *)
Fixpoint scan (bosses : list Boss.t) (achievements : list Player.t)
    (index : Z) (rest : list Boss.t) : completion json :=
  match rest with
  | [] =>
      Return
        (obj [("response",
               Some (obj [("complete", Some (JBool true));
                          ("recent_boss",
                           option_map boss_json
                             (js_index bosses (Z.of_nat (List.length bosses) - 1)))]))])
  | boss :: rest' =>
      let currentBoss :=
        find (fun achievement =>
                strict_eq (Player.apiname achievement) (Boss.apiname boss))
             achievements in
      let possibleAchievements :=
        match currentBoss with
        | None =>
            filter (fun achievement =>
                      includes (Boss.apiname boss) (Player.apiname achievement))
                   achievements
        | Some _ => []
        end in
      if existsb (fun achievement => truthy (Player.achieved achievement))
                 possibleAchievements
      then
        Return
          (obj [("data",
                 Some (obj [("complete", Some (JBool true));
                            ("recent_boss", Some (JStr (Boss.name boss)))]))])
      else
        cb <- read_of "achieved" currentBoss ;;
        if negb (truthy (Player.achieved cb))
        then
          prev <- read_of "name" (js_index bosses (index - 1)) ;;
          Return
            (obj [("data",
                   Some (obj [("complete", Some (JBool false));
                              ("next_boss", Some (JStr (Boss.name boss)));
                              ("recent_boss", Some (JStr (Boss.name prev)))]))])
        else scan bosses achievements (index + 1) rest'
  end.

Definition evaluate (bosses : list Boss.t) (achievements : list Player.t)
  : completion json :=
  scan bosses achievements 0 bosses.

(** ** Upstream responses and the shape of a handler *)

(** What [await fetch(..)] followed by [await response.json()] yields. *)
Record Response (T : Type) : Type := mkResponse { status : Z; payload : T }.
Arguments mkResponse {T} status payload.
Arguments status {T} r.
Arguments payload {T} r.

(** [response.ok] *)
Definition ok {T} (response : Response T) : bool :=
  (200 <=? status response) && (status response <=? 299).

(** A number inside a template literal. *)
Definition show_Z (z : Z) : string := NilZero.string_of_int (Z.to_int z).

(** [res.status(response.status).json({ error: true, message: .. })] *)
Definition failed_fetch (st : Z) : Z * json :=
  (st, obj [("error", Some (JBool true));
            ("message",
             Some (JStr ("Failed to fetch data with status " ++ show_Z st)))]).

(** [try { .. } catch (err) { next(err); }] around a handler body that
    computes the status and the body of its response. *)
Definition handler (body : completion (Z * json)) : outcome :=
  match body with
  | Return (st, b) => Sent st b
  | Throw e => Next e
  end.

(** [require(path)] against the files on disk; a missing file throws. *)
Definition require {A} (files : string -> option A) (path : string) : completion A :=
  match files path with
  | Some a => Return a
  | None => Throw (ModuleNotFound path)
  end.

(** ** Appid dispatch *)

(** The [switch (req.params.appid)] of the bosses route. *)
Definition bosses_file (appid : string) : string :=
  if String.eqb appid "570940" then "../schemas/bosses/darksoulsremastered.json"
  else if String.eqb appid "1245620" then "../schemas/bosses/eldenring.json"
  else "../schemas/bosses/darksoulsremastered.json".

(** The [switch (req.params.appid)] of the achievements route. *)
Definition schema_file (appid : string) : string :=
  if String.eqb appid "570940" then "../schemas/darksoulsremastered_schema.json"
  else if String.eqb appid "1245620" then "../schemas/eldenring_schema.json"
  else "../schemas/darksoulsremasteredschema.json".

Definition bosses_route (files : string -> option (list Boss.t))
    (appid : string) (response : Response (list Player.t)) : outcome :=
  handler
    (bosses <- require files (bosses_file appid) ;;
     if negb (ok response) then Return (failed_fetch (status response))
     else
       let achievements := payload response in
       body <- evaluate bosses achievements ;;
       Return (200, body)).

(** ** Owned games: [GET /owned-games/:steamid] *)

Module Game.
Record t : Type := mk { name : string; appid : Z }.
End Game.

(** [data.response] of GetOwnedGames; both keys are absent when the
    profile is private. *)
Record OwnedGames : Type :=
  mkOwned { game_count : option Z; games : option (list Game.t) }.

Definition DSR_title : string := "DARK SOULS™: REMASTERED".
Definition DS2_title : string := "DARK SOULS™ II".
Definition DS3_title : string := "DARK SOULS™ III".

(** The [switch (game.name)] inside the [forEach]. *)
Definition frontend_id (name : string) : string :=
  if String.eqb name DSR_title then "dark-souls-remastered"
  else if String.eqb name DS2_title then "dark-souls-2"
  else if String.eqb name DS3_title then "dark-souls-3"
  else "elden-ring".

Definition newGame (game : Game.t) : json :=
  obj [("id", Some (JStr (frontend_id (Game.name game))));
       ("name", Some (JStr (Game.name game)));
       ("appid", Some (JNum (inject_Z (Game.appid game))))].

Definition owned_games_route (response : Response OwnedGames) : outcome :=
  handler
    (if negb (ok response) then Return (failed_fetch (status response))
     else
       let data := payload response in
       match game_count data with
       | Some 0 => Return (200, JArr [])
       | _ =>
           gs <- read_of "forEach" (games data) ;;
           let result := fold_left (fun result game => (result ++ [newGame game])%list)
                                   gs [] in
           Return (200, JArr result)
       end).

(** ** Calendar dates: [new Date(ms).toDateString()] *)

Section Dates.

(** Offset of local time from UTC, in milliseconds, at a UTC time value:
    the host's time zone. *)
Variable LocalTZA : Z -> Z.

Definition msPerDay : Z := 86400000.

Definition Day (t : Z) : Z := t / msPerDay.

Definition WeekDay (t : Z) : Z := (Day t + 4) mod 7.

(** Year, month (1..12) and day of month (1..31) of a day number counted
    from 1970-01-01 in the proleptic Gregorian calendar. *)
Definition civil (day : Z) : Z * Z * Z :=
  let z := day + 719468 in
  let era := z / 146097 in
  let doe := z - era * 146097 in
  let yoe := (doe - doe / 1460 + doe / 36524 - doe / 146096) / 365 in
  let doy := doe - (365 * yoe + yoe / 4 - yoe / 100) in
  let mp := (5 * doy + 2) / 153 in
  let d := doy - (153 * mp + 2) / 5 + 1 in
  let m := if mp <? 10 then mp + 3 else mp - 9 in
  (yoe + era * 400 + (if m <=? 2 then 1 else 0), m, d).

Definition day_names : list string :=
  ["Sun"; "Mon"; "Tue"; "Wed"; "Thu"; "Fri"; "Sat"].

Definition month_names : list string :=
  ["Jan"; "Feb"; "Mar"; "Apr"; "May"; "Jun";
   "Jul"; "Aug"; "Sep"; "Oct"; "Nov"; "Dec"].

(** Decimal digits of a natural number, left-padded with zeros. *)
Definition padded (width : nat) (n : Z) : string :=
  let digits := NilZero.string_of_uint (N.to_uint (Z.to_N n)) in
  let missing := (width - String.length digits)%nat in
  String.concat "" (repeat "0" missing) ++ digits.

Definition DateString (t : Z) : string :=
  let '(y, m, d) := civil (Day t) in
  nth (Z.to_nat (WeekDay t)) day_names "" ++ " " ++
  nth (Z.to_nat (m - 1)) month_names "" ++ " " ++
  padded 2 d ++ " " ++
  (if y <? 0 then "-" else "") ++ padded 4 (Z.abs y).

(** [new Date(ms).toDateString()]: a time value beyond the range of
    [Date] is clipped to [NaN]. *)
Definition toDateString (ms : Z) : string :=
  if 8640000000000000 <? Z.abs ms then "Invalid Date"
  else DateString (ms + LocalTZA ms).

End Dates.

(** The host clock set to UTC. *)
Definition UTC : Z -> Z := fun _ => 0.

(** ** Achievement enrichment: [GET /achievements/:steamid/:appid] *)

Module Schema.
Record t : Type :=
  mk { name : string; displayName : string; description : string;
       icon : string }.
End Schema.

Module Rarity.
Record t : Type := mk { name : string; percent : Q }.
End Rarity.

Module Enriched.
Record t : Type :=
  mk { name : string; description : string; unlocktime : string;
       icon : string; rarity : Q }.
End Enriched.

Definition enriched_json (e : Enriched.t) : json :=
  obj [("name", Some (JStr (Enriched.name e)));
       ("description", Some (JStr (Enriched.description e)));
       ("unlocktime", Some (JStr (Enriched.unlocktime e)));
       ("icon", Some (JStr (Enriched.icon e)));
       ("rarity", Some (JNum (Enriched.rarity e)))].

Section Enrichment.

Variable LocalTZA : Z -> Z.

(** [percentages.find((percentage) => percentage.name === achievement.name)] *)
Definition find_percentage (percentages : list Rarity.t)
    (achievement : Schema.t) : option Rarity.t :=
  find (fun percentage =>
          String.eqb (Rarity.name percentage) (Schema.name achievement))
       percentages.

Definition resultAchievement (achievement : Schema.t) (player : Player.t)
    (percentage : Q) : Enriched.t :=
  {| Enriched.name := Schema.displayName achievement;
     Enriched.description := Schema.description achievement;
     Enriched.unlocktime :=
       toDateString LocalTZA (Player.unlocktime player * 1000);
     Enriched.icon := Schema.icon achievement;
     Enriched.rarity := percentage |}.

(** The callback of [schema...achievements.forEach], threading the
    accumulator [result]; [rest] is what remains to visit and [index]
    the position of its head. *)
Fixpoint forEach (playerAchievements : list Player.t)
    (percentages : list Rarity.t) (index : nat) (rest : list Schema.t)
    (result : list Enriched.t) : completion (list Enriched.t) :=
  match rest with
  | [] => Return result
  | achievement :: rest' =>
      player <- read_of "achieved" (nth_error playerAchievements index) ;;
      if truthy (Player.achieved player)
      then
        found <- read_of "percent" (find_percentage percentages achievement) ;;
        let percentage := Rarity.percent found in
        forEach playerAchievements percentages (S index) rest'
          (result ++ [resultAchievement achievement player percentage])%list
      else forEach playerAchievements percentages (S index) rest' result
  end.

Definition enrich (schema : list Schema.t) (playerAchievements : list Player.t)
    (percentages : list Rarity.t) : completion (list Enriched.t) :=
  forEach playerAchievements percentages 0 schema [].

Definition achievements_route (files : string -> option (list Schema.t))
    (appid : string) (response : Response (list Player.t))
    (percentagesResponse : Response (list Rarity.t)) : outcome :=
  handler
    (if negb (ok response) then Return (failed_fetch (status response))
     else
       let playerAchievements := payload response in
       schema <- require files (schema_file appid) ;;
       if negb (ok percentagesResponse)
       then Return (failed_fetch (status percentagesResponse))
       else
         let percentages := payload percentagesResponse in
         result <- enrich schema playerAchievements percentages ;;
         Return (200, obj [("data",
                            Some (obj [("result",
                                        Some (JArr (map enriched_json result)))]))])).

End Enrichment.

(** ** User profile: [GET /user-profile/:steamid] *)

Module Profile.
Record t : Type := mk { personaname : string; avatarmedium : string }.
End Profile.

(** Strings are held as UTF-8 bytes; the white space and line terminators
    that [parseInt] skips are recognised by their encodings. *)
Definition white1 (a : nat) : bool :=
  ((9 <=? a) && (a <=? 13) || (a =? 32))%nat.

(** U+00A0 *)
Definition white2 (a b : nat) : bool := ((a =? 194) && (b =? 160))%nat.

(** U+1680, U+2000..U+200A, U+2028, U+2029, U+202F, U+205F, U+3000, U+FEFF *)
Definition white3 (a b c : nat) : bool :=
  ((a =? 225) && (b =? 154) && (c =? 128)
   || (a =? 226) && (b =? 128)
      && ((128 <=? c) && (c <=? 138) || (c =? 168) || (c =? 169) || (c =? 175))
   || (a =? 226) && (b =? 129) && (c =? 159)
   || (a =? 227) && (b =? 128) && (c =? 128)
   || (a =? 239) && (b =? 187) && (c =? 191))%nat.

(** [TrimString(s, start)] *)
Fixpoint trimStart (s : string) : string :=
  match s with
  | String a s1 =>
      if white1 (nat_of_ascii a) then trimStart s1
      else
        match s1 with
        | String b s2 =>
            if white2 (nat_of_ascii a) (nat_of_ascii b) then trimStart s2
            else
              match s2 with
              | String c s3 =>
                  if white3 (nat_of_ascii a) (nat_of_ascii b) (nat_of_ascii c)
                  then trimStart s3
                  else s
              | EmptyString => s
              end
        | EmptyString => s
        end
  | EmptyString => s
  end.

(** The value of a code unit as a digit of radix [R], if it is one. *)
Definition radix_digit (R : Z) (c : ascii) : option Z :=
  let n := Z.of_nat (nat_of_ascii c) in
  let d := if (48 <=? n) && (n <=? 57) then n - 48
           else if (97 <=? n) && (n <=? 122) then n - 87
           else if (65 <=? n) && (n <=? 90) then n - 55
           else R in
  if d <? R then Some d else None.

(** The integer written by the longest prefix of radix-[R] digits; [acc]
    is [None] until a digit has been read. *)
Fixpoint read_digits (R : Z) (s : string) (acc : option Z) : option Z :=
  match s with
  | String c s' =>
      match radix_digit R c with
      | Some d =>
          read_digits R s'
            (Some (R * match acc with Some v => v | None => 0 end + d))
      | None => acc
      end
  | EmptyString => acc
  end.

(** [parseInt(input)] with no radix argument: the integer read, or [None]
    for [NaN]. *)
Definition parseInt (input : string) : option Z :=
  let trimmed := trimStart input in
  let '(sign, unsigned) :=
    match trimmed with
    | String "-" rest => (-1, rest)
    | String "+" rest => (1, rest)
    | _ => (1, trimmed)
    end in
  let '(R, digits) :=
    match unsigned with
    | String "0" (String "x" rest) => (16, rest)
    | String "0" (String "X" rest) => (16, rest)
    | _ => (10, unsigned)
    end in
  option_map (Z.mul sign) (read_digits R digits None).

(** [v !== v], which holds of [NaN] alone. *)
Definition differs_from_itself (v : option Z) : bool :=
  match v with
  | None => true
  | Some _ => false
  end.

Definition user_profile_route (steamid : string)
    (response : Response (list Profile.t)) : outcome :=
  handler
    (if String.eqb steamid "" || differs_from_itself (parseInt steamid)
     then Return (400, obj [("error", Some (JBool true));
                            ("message", Some (JStr "Invalid SteamID"))])
     else if negb (ok response) then Return (failed_fetch (status response))
     else
       let players := payload response in
       match players with
       | [] =>
           Return (404, obj [("error", Some (JBool true));
                             ("message",
                              Some (JStr ("User with steamid " ++ steamid
                                          ++ " not found")))])
       | user :: _ =>
           Return (200, obj [("steamid", Some (JStr steamid));
                             ("personaname", Some (JStr (Profile.personaname user)));
                             ("avatarmedium", Some (JStr (Profile.avatarmedium user)))])
       end).

(** ** Playtime: [GET /playtime/:steamid/:appid] *)

Module Played.
Record t : Type := mk { playtime_forever : Z; playtime_2weeks : option Z }.
End Played.

Section Playtime.

(** [(minutes / 60).toFixed(1)]: a floating-point division and its
    rounding to one decimal, left to the host. *)
Variable hours : Z -> string.

(** The payload is [data.response.games], absent when the player does not
    own the game. *)
Definition playtime_route (response : Response (option (list Played.t)))
  : outcome :=
  handler
    (if negb (ok response) then Return (failed_fetch (status response))
     else
       games <- read_of "0" (payload response) ;;
       game <- read_of "playtime_2weeks" (js_index games 0) ;;
       match Played.playtime_2weeks game with
       | Some recent =>
           if truthy recent
           then
             Return (200,
                     obj [("data",
                           Some (obj [("playtime_forever",
                                       Some (JStr (hours (Played.playtime_forever game))));
                                      ("playtime_2weeks",
                                       Some (JStr (hours recent)))]))])
           else
             Return (200,
                     obj [("data",
                           Some (obj [("playtime_forever",
                                       Some (JStr (hours (Played.playtime_forever game))));
                                      ("playtime_2weeks", Some (JNum 0))]))])
       | None =>
           Return (200,
                   obj [("data",
                         Some (obj [("playtime_forever",
                                     Some (JStr (hours (Played.playtime_forever game))));
                                    ("playtime_2weeks", Some (JNum 0))]))])
       end).

End Playtime.

(** * Vocabulary of the specification *)

Local Open Scope list_scope.

(** ** Reading the player's achievement set *)

(** The player's entry for an achievement identifier: the first entry
    whose [apiname] equals it. *)
Definition entry (achievements : list Player.t) (id : string) : option Player.t :=
  find (fun a => String.eqb (Player.apiname a) id) achievements.

(** The milestone has an exact-match entry, and it is achieved. *)
Definition defeated (achievements : list Player.t) (b : Boss.t) : bool :=
  match Boss.apiname b with
  | Single id =>
      match entry achievements id with
      | Some a => truthy (Player.achieved a)
      | None => false
      end
  | Branching _ => false
  end.

(** The milestone has an exact-match entry, and it is not achieved. *)
Definition undefeated (achievements : list Player.t) (b : Boss.t) : bool :=
  match Boss.apiname b with
  | Single id =>
      match entry achievements id with
      | Some a => negb (truthy (Player.achieved a))
      | None => false
      end
  | Branching _ => false
  end.

(** Some entry of the player carries one of the identifiers and is achieved. *)
Definition any_achieved (achievements : list Player.t) (ids : list string) : bool :=
  existsb (fun a => existsb (String.eqb (Player.apiname a)) ids
                    && truthy (Player.achieved a)) achievements.

(** The verdict objects of the spec, as JSON. *)
Definition next_boss_found (next recent : string) : json :=
  JObj [("data", JObj [("complete", JBool false);
                       ("next_boss", JStr next);
                       ("recent_boss", JStr recent)])].

Definition complete_at (recent : string) : json :=
  JObj [("data", JObj [("complete", JBool true); ("recent_boss", JStr recent)])].

(** Some entry of the player is achieved and carries an identifier that
    [boss.apiname.includes] accepts. *)
Definition candidate_achieved (achievements : list Player.t) (b : Boss.t) : bool :=
  existsb (fun a => includes (Boss.apiname b) (Player.apiname a)
                    && truthy (Player.achieved a)) achievements.

(** ** Reading the enrichment contract *)

(** The positions of the spec's contract: schema entries paired with the
    player entries at the same index, achieved ones only, in schema
    order. *)
Definition achieved_positions (schema : list Schema.t)
    (players : list Player.t) : list (Schema.t * Player.t) :=
  filter (fun sp => truthy (Player.achieved (snd sp))) (combine schema players).

(** [e] is the enrichment of schema entry [fst sp] achieved as [snd sp]:
    the schema's display data, the unlock date, and the percentage of the
    first rarity entry named after the schema entry. *)
Definition enriches (LocalTZA : Z -> Z) (percentages : list Rarity.t)
    (sp : Schema.t * Player.t) (e : Enriched.t) : Prop :=
  Enriched.name e = Schema.displayName (fst sp) /\
  Enriched.description e = Schema.description (fst sp) /\
  Enriched.unlocktime e
  = toDateString LocalTZA (Player.unlocktime (snd sp) * 1000) /\
  Enriched.icon e = Schema.icon (fst sp) /\
  exists r, find_percentage percentages (fst sp) = Some r /\
            In r percentages /\
            Rarity.name r = Schema.name (fst sp) /\
            Enriched.rarity e = Rarity.percent r.

(** The rarity table has an entry named after the schema entry. *)
Definition covered (percentages : list Rarity.t) (s : Schema.t) : Prop :=
  exists r, In r percentages /\ Rarity.name r = Schema.name s.

(** ** Reading a steamid *)

(** One of the characters ['1'] to ['9']. *)
Definition leading_digit (c : ascii) : bool :=
  let n := nat_of_ascii c in ((49 <=? n) && (n <=? 57))%nat.

(** An ASCII character that is neither white space, nor a sign, nor a
    decimal digit. *)
Definition never_numeric (c : ascii) : bool :=
  let n := nat_of_ascii c in
  ((n <? 128) && negb (white1 n) && negb (n =? 43) && negb (n =? 45)
   && negb ((48 <=? n) && (n <=? 57)))%nat.

(** The frontend ids the owned-games listing hands out. *)
Definition frontend_ids : list string :=
  ["dark-souls-remastered"; "dark-souls-2"; "dark-souls-3"; "elden-ring"].

(** ** Reading a calendar date *)

(** The day count of ECMAScript: the day number of the first day of year
    [y], leap years, and the day number of a calendar date. *)
Definition DayFromYear (y : Z) : Z :=
  365 * (y - 1970) + (y - 1969) / 4 - (y - 1901) / 100 + (y - 1601) / 400.

Definition InLeapYear (y : Z) : bool :=
  (y mod 4 =? 0) && negb (y mod 100 =? 0) || (y mod 400 =? 0).

Definition DaysInMonth (y m : Z) : Z :=
  if m =? 2 then (if InLeapYear y then 29 else 28)
  else if (m =? 4) || (m =? 6) || (m =? 9) || (m =? 11) then 30
  else 31.

(** As a number: 1 in a leap year, 0 otherwise. *)
Definition leapZ (y : Z) : Z := if InLeapYear y then 1 else 0.

Definition DaysBeforeMonth (y m : Z) : Z :=
  let leap := if InLeapYear y then 1 else 0 in
  match m with
  | 1 => 0 | 2 => 31 | 3 => 59 + leap | 4 => 90 + leap | 5 => 120 + leap
  | 6 => 151 + leap | 7 => 181 + leap | 8 => 212 + leap | 9 => 243 + leap
  | 10 => 273 + leap | 11 => 304 + leap | _ => 334 + leap
  end.

Definition DayOfDate (y m d : Z) : Z :=
  DayFromYear y + DaysBeforeMonth y m + (d - 1).

(** ** Sample data *)

(** A small boss sequence and players used for concrete runs. *)
Definition demo_bosses : list Boss.t :=
  [Boss.mk (Single "ACH_GARGOYLES") "Bell Gargoyles";
   Boss.mk (Single "ACH_QUELAAG") "Chaos Witch Quelaag";
   Boss.mk (Branching ["END_A"; "END_B"; "END_C"]) "Elden Beast"].

Definition demo_player (gargoyles quelaag a b c : Z) : list Player.t :=
  [Player.mk "END_C" c 0;
   Player.mk "ACH_QUELAAG" quelaag 0;
   Player.mk "END_A" a 0;
   Player.mk "ACH_GARGOYLES" gargoyles 1726438602;
   Player.mk "END_B" b 0].

(** The boss lists on disk, cut down to a few milestones each. *)
Definition demo_files (path : string) : option (list Boss.t) :=
  if String.eqb path "../schemas/bosses/darksoulsremastered.json"
  then Some (firstn 2 demo_bosses)
  else if String.eqb path "../schemas/bosses/eldenring.json"
  then Some [Boss.mk (Single "ACH_MARGIT") "Margit, the Fell Omen";
             Boss.mk (Branching ["END_A"; "END_B"; "END_C"]) "Elden Beast"]
  else None.

(** The example of the spec's testable properties. *)
Definition demo_schema : list Schema.t :=
  [Schema.mk "A0" "Enkindle" "Light bonfire flame." "https://cdn/a0.jpg";
   Schema.mk "A1" "Estus Flask" "Acquire Estus Flask." "https://cdn/a1.jpg"].

Definition demo_achievements : list Player.t :=
  [Player.mk "A0" 0 0; Player.mk "A1" 1 1700000000].

Definition demo_rarity : list Rarity.t :=
  [Rarity.mk "A0" (10 # 1); Rarity.mk "A1" (42 # 1)].

(** * Properties *)

Lemma entry_unique (achievements : list Player.t) (a : Player.t) :
  NoDup (map Player.apiname achievements) ->
  In a achievements ->
  entry achievements (Player.apiname a) = Some a.
Proof.
  unfold entry.
  induction achievements as [|x xs IH]; simpl; intros Hnd Hin; [contradiction|].
  inversion Hnd as [|? ? Hx Hxs]; subst.
  destruct Hin as [->|Hin].
  - now rewrite String.eqb_refl.
  - destruct (String.eqb_spec (Player.apiname x) (Player.apiname a)) as [E|_].
    + exfalso. apply Hx. rewrite E. now apply in_map.
    + now apply IH.
Qed.

Lemma find_strict_branching (achievements : list Player.t) (b : Boss.t)
    (ids : list string) :
  Boss.apiname b = Branching ids ->
  find (fun a => strict_eq (Player.apiname a) (Boss.apiname b)) achievements = None.
Proof.
  intros ->. induction achievements as [|x xs IH]; simpl; auto.
Qed.

Lemma existsb_filter {A} (p q : A -> bool) (l : list A) :
  existsb p (filter q l) = existsb (fun x => q x && p x) l.
Proof.
  induction l as [|x xs IH]; simpl; auto.
  destruct (q x); simpl; now rewrite IH.
Qed.

(** ** The scan, one milestone at a time *)

Lemma scan_defeated bosses achievements index b rest :
  defeated achievements b = true ->
  scan bosses achievements index (b :: rest)
  = scan bosses achievements (index + 1) rest.
Proof.
  unfold defeated. intros H. simpl.
  destruct (Boss.apiname b) as [id|ids] eqn:E; [|discriminate].
  simpl. fold (entry achievements id).
  destruct (entry achievements id) as [a|]; [|discriminate].
  simpl. now rewrite H.
Qed.

Lemma scan_undefeated bosses achievements index b rest :
  undefeated achievements b = true ->
  scan bosses achievements index (b :: rest)
  = (prev <- read_of "name" (js_index bosses (index - 1)) ;;
     Return (next_boss_found (Boss.name b) (Boss.name prev))).
Proof.
  unfold undefeated. intros H. simpl.
  destruct (Boss.apiname b) as [id|ids] eqn:E; [|discriminate].
  simpl. fold (entry achievements id).
  destruct (entry achievements id) as [a|]; [|discriminate].
  simpl. now rewrite H.
Qed.

Lemma scan_branching bosses achievements index b ids rest :
  Boss.apiname b = Branching ids ->
  scan bosses achievements index (b :: rest)
  = if any_achieved achievements ids
    then Return (complete_at (Boss.name b))
    else Throw (TypeError
                  "Cannot read properties of undefined (reading 'achieved')").
Proof.
  intros E. simpl.
  rewrite (find_strict_branching achievements b ids E).
  rewrite existsb_filter. rewrite E. simpl. fold (any_achieved achievements ids).
  now destruct (any_achieved achievements ids).
Qed.

Lemma scan_prefix bosses achievements pre :
  forallb (defeated achievements) pre = true ->
  forall index rest,
    scan bosses achievements index (pre ++ rest)
    = scan bosses achievements (index + Z.of_nat (List.length pre)) rest.
Proof.
  induction pre as [|b pre IH]; intros H index rest.
  - simpl. now rewrite Z.add_0_r.
  - simpl in H. apply andb_true_iff in H as [Hb Hpre].
    change ((b :: pre) ++ rest) with (b :: (pre ++ rest)).
    rewrite scan_defeated by assumption.
    rewrite IH by assumption.
    f_equal. simpl List.length. lia.
Qed.

Lemma js_index_nat {A} (l : list A) (n : nat) :
  js_index l (Z.of_nat n) = nth_error l n.
Proof.
  unfold js_index.
  destruct (Z.ltb_spec (Z.of_nat n) 0); [lia|].
  now rewrite Nat2Z.id.
Qed.

Lemma split_at {A} (l : list A) (n : nat) (x : A) :
  nth_error l n = Some x ->
  l = firstn n l ++ x :: skipn (S n) l /\ List.length (firstn n l) = n.
Proof.
  revert l. induction n as [|n IH]; intros [|y l] H; simpl in H; try discriminate.
  - injection H as ->. auto.
  - destruct (IH l H) as [E L]. split.
    + change (skipn (S (S n)) (y :: l)) with (skipn (S n) l).
      cbn [firstn app]. f_equal. exact E.
    + cbn [firstn List.length]. now rewrite L.
Qed.

Lemma scan_reaches bosses achievements pre b post :
  bosses = pre ++ b :: post ->
  forallb (defeated achievements) pre = true ->
  evaluate bosses achievements
  = scan bosses achievements (Z.of_nat (List.length pre)) (b :: post).
Proof.
  intros E Hpre. unfold evaluate.
  rewrite E at 2. now rewrite scan_prefix.
Qed.

Lemma any_achieved_intro achievements ids c a :
  In c ids -> In a achievements -> Player.apiname a = c ->
  truthy (Player.achieved a) = true ->
  any_achieved achievements ids = true.
Proof.
  intros Hc Ha E Ht. unfold any_achieved.
  apply existsb_exists. exists a. split; [assumption|].
  rewrite Ht, andb_true_r.
  apply existsb_exists. exists c. split; [assumption|].
  now apply String.eqb_eq.
Qed.

(** ** Boss progress: what [evaluate] returns *)

(** C1. When the first [K] milestones ([0 < K < N]) each have an
    exact-match entry that is achieved and milestone [K] has an exact-match
    entry that is not achieved, [evaluate] returns [complete = false],
    [next_boss] the name of milestone [K] and [recent_boss] the name of
    milestone [K-1], under [data]. *)
Theorem evaluate_next_and_recent
    (bosses : list Boss.t) (achievements : list Player.t) (K : nat)
    (recent next : Boss.t) :
  (0 < K)%nat ->
  forallb (defeated achievements) (firstn K bosses) = true ->
  nth_error bosses (K - 1) = Some recent ->
  nth_error bosses K = Some next ->
  undefeated achievements next = true ->
  evaluate bosses achievements
  = Return (next_boss_found (Boss.name next) (Boss.name recent)).
Proof.
  intros HK Hfirst Hrecent Hnext Hun.
  destruct (split_at bosses K next Hnext) as [E L].
  rewrite (scan_reaches bosses achievements _ _ _ E Hfirst), L.
  rewrite scan_undefeated by assumption.
  replace (Z.of_nat K - 1) with (Z.of_nat (K - 1)) by lia.
  rewrite js_index_nat, Hrecent. reflexivity.
Qed.

Lemma evaluate_next_and_recent_witness :
  evaluate demo_bosses (demo_player 1 0 0 0 0)
  = Return (next_boss_found "Chaos Witch Quelaag" "Bell Gargoyles").
Proof.
  apply (evaluate_next_and_recent demo_bosses (demo_player 1 0 0 0 0) 1
           (Boss.mk (Single "ACH_GARGOYLES") "Bell Gargoyles")
           (Boss.mk (Single "ACH_QUELAAG") "Chaos Witch Quelaag"));
    [lia | reflexivity | reflexivity | reflexivity | reflexivity].
Defined.

(** When the first milestone has an exact-match entry that is not achieved,
    the handler reads [bosses[-1].name] and throws. *)
Lemma evaluate_first_undefeated (b : Boss.t) (rest : list Boss.t)
    (achievements : list Player.t) :
  undefeated achievements b = true ->
  evaluate (b :: rest) achievements
  = Throw (TypeError "Cannot read properties of undefined (reading 'name')").
Proof.
  intros H. unfold evaluate. now rewrite scan_undefeated.
Qed.

(** C2. A player who has not defeated the first milestone: the claim asks
    for [next_boss] = the first milestone's name with [recent_boss] absent;
    the code throws a [TypeError] instead. *)
Theorem evaluate_index_0_throws :
  undefeated (demo_player 0 0 0 0 0) (Boss.mk (Single "ACH_GARGOYLES") "Bell Gargoyles") = true /\
  evaluate demo_bosses (demo_player 0 0 0 0 0)
  = Throw (TypeError "Cannot read properties of undefined (reading 'name')") /\
  bosses_route (fun _ => Some demo_bosses) "570940"
    (mkResponse 200 (demo_player 0 0 0 0 0))
  = Next (TypeError "Cannot read properties of undefined (reading 'name')").
Proof. repeat split; reflexivity. Qed.

(** When every milestone has an exact-match entry that is achieved, the
    handler answers under [response] with the last milestone object. *)
Lemma evaluate_all_defeated (bosses : list Boss.t) (achievements : list Player.t)
    (final : Boss.t) :
  forallb (defeated achievements) bosses = true ->
  nth_error bosses (List.length bosses - 1) = Some final ->
  evaluate bosses achievements
  = Return (JObj [("response", JObj [("complete", JBool true);
                                     ("recent_boss", boss_json final)])]).
Proof.
  intros Hall Hfinal.
  assert (Hlen : (0 < List.length bosses)%nat).
  { destruct bosses; [discriminate | simpl; lia]. }
  unfold evaluate.
  rewrite <- (app_nil_r bosses) at 2.
  rewrite scan_prefix by assumption. simpl.
  replace (Z.of_nat (List.length bosses) - 1)
    with (Z.of_nat (List.length bosses - 1)) by lia.
  now rewrite js_index_nat, Hfinal.
Qed.

(** C3. A player who has achieved every milestone: the claim asks for
    [{ complete: true, recent_boss: <name> }] under [data]; the code
    answers under [response] and puts the whole milestone object, not its
    name, in [recent_boss]. *)
Theorem evaluate_all_achieved_shape :
  forallb (defeated (demo_player 1 1 0 0 0)) (firstn 2 demo_bosses) = true /\
  evaluate (firstn 2 demo_bosses) (demo_player 1 1 0 0 0)
  = Return
      (JObj [("response",
              JObj [("complete", JBool true);
                    ("recent_boss",
                     JObj [("apiname", JStr "ACH_QUELAAG");
                           ("name", JStr "Chaos Witch Quelaag")])])]) /\
  evaluate (firstn 2 demo_bosses) (demo_player 1 1 0 0 0)
  <> Return (complete_at "Chaos Witch Quelaag").
Proof. split; [reflexivity | split; [reflexivity | discriminate]]. Qed.

(** When the scan reaches a milestone whose [apiname] is an array and no
    candidate is achieved, the handler reads [achieved] of [undefined]. *)
Lemma evaluate_branching_none (bosses pre post : list Boss.t) (b : Boss.t)
    (ids : list string) (achievements : list Player.t) :
  bosses = pre ++ b :: post ->
  forallb (defeated achievements) pre = true ->
  Boss.apiname b = Branching ids ->
  any_achieved achievements ids = false ->
  evaluate bosses achievements
  = Throw (TypeError "Cannot read properties of undefined (reading 'achieved')").
Proof.
  intros E Hpre Hb Hnone.
  rewrite (scan_reaches bosses achievements pre b post E Hpre).
  rewrite (scan_branching _ _ _ _ ids) by assumption.
  now rewrite Hnone.
Qed.

(** C4. A player who has defeated everything before the branching
    milestone and achieved none of its endings: the claim asks for
    [next_boss] = the milestone's name and no exception; the code throws a
    [TypeError]. *)
Theorem evaluate_branching_none_throws :
  any_achieved (demo_player 1 1 0 0 0) ["END_A"; "END_B"; "END_C"] = false /\
  evaluate demo_bosses (demo_player 1 1 0 0 0)
  = Throw (TypeError "Cannot read properties of undefined (reading 'achieved')") /\
  bosses_route (fun _ => Some demo_bosses) "1245620"
    (mkResponse 200 (demo_player 1 1 0 0 0))
  = Next (TypeError "Cannot read properties of undefined (reading 'achieved')").
Proof. repeat split; reflexivity. Qed.

(** C5. When the scan reaches a branching milestone (every milestone
    before it has an achieved exact-match entry) and some candidate of its
    identifier set is achieved by the player, [evaluate] stops there and
    returns [complete = true] with [recent_boss] the milestone's name and
    no [next_boss]; the result does not depend on which candidate [c] or
    which entry [a] it is. *)
Theorem evaluate_branching_achieved
    (bosses pre post : list Boss.t) (b : Boss.t) (ids : list string)
    (achievements : list Player.t) (c : string) (a : Player.t) :
  bosses = pre ++ b :: post ->
  forallb (defeated achievements) pre = true ->
  Boss.apiname b = Branching ids ->
  In c ids ->
  In a achievements ->
  Player.apiname a = c ->
  truthy (Player.achieved a) = true ->
  evaluate bosses achievements
  = Return (JObj [("data", JObj [("complete", JBool true);
                                 ("recent_boss", JStr (Boss.name b))])]).
Proof.
  intros E Hpre Hb Hc Ha Hac Ht.
  rewrite (scan_reaches bosses achievements pre b post E Hpre).
  rewrite (scan_branching _ _ _ _ ids) by assumption.
  now rewrite (any_achieved_intro achievements ids c a).
Qed.

Lemma evaluate_branching_achieved_witness :
  evaluate demo_bosses (demo_player 1 1 0 1 0)
  = Return (JObj [("data", JObj [("complete", JBool true);
                                 ("recent_boss", JStr "Elden Beast")])]).
Proof.
  apply (evaluate_branching_achieved demo_bosses (firstn 2 demo_bosses) []
           (Boss.mk (Branching ["END_A"; "END_B"; "END_C"]) "Elden Beast")
           ["END_A"; "END_B"; "END_C"] (demo_player 1 1 0 1 0)
           "END_B" (Player.mk "END_B" 1 0)).
  - reflexivity.
  - reflexivity.
  - reflexivity.
  - simpl. auto.
  - simpl. auto 6.
  - reflexivity.
  - reflexivity.
Defined.

(** ** Appid dispatch *)

(** Every appid other than the two listed ones selects the Dark Souls
    Remastered boss list. *)
Lemma bosses_file_default (appid : string) :
  appid <> "570940" -> appid <> "1245620" ->
  bosses_file appid = bosses_file "570940".
Proof.
  intros H1 H2. unfold bosses_file.
  destruct (String.eqb_spec appid "570940"); [contradiction|].
  destruct (String.eqb_spec appid "1245620"); [contradiction|].
  reflexivity.
Qed.

(** C6. Appid 374320 (Dark Souls III, outside the two catalog entries):
    the claim asks for an explicit NotFound surfaced as a 4xx response; the
    bosses route loads the Dark Souls Remastered boss list and answers 200
    with progress computed against it, and the achievements route asks for
    a schema file under a third name and ends in [next(err)] when that
    file does not exist. *)
Theorem unknown_appid_substitutes_default :
  bosses_file "374320" = "../schemas/bosses/darksoulsremastered.json" /\
  bosses_route demo_files "374320" (mkResponse 200 (demo_player 1 0 0 0 0))
  = bosses_route demo_files "570940" (mkResponse 200 (demo_player 1 0 0 0 0)) /\
  bosses_route demo_files "374320" (mkResponse 200 (demo_player 1 0 0 0 0))
  = Sent 200 (next_boss_found "Chaos Witch Quelaag" "Bell Gargoyles") /\
  achievements_route UTC (fun _ => None) "374320"
    (mkResponse 200 (demo_player 1 0 0 0 0)) (mkResponse 200 [])
  = Next (ModuleNotFound "../schemas/darksoulsremasteredschema.json").
Proof. repeat split; reflexivity. Qed.

(** ** Owned games *)

Lemma push_all {A B} (f : A -> B) (l : list A) (acc : list B) :
  fold_left (fun result x => result ++ [f x]) l acc = acc ++ map f l.
Proof.
  revert acc. induction l as [|x l IH]; intros acc; simpl.
  - now rewrite app_nil_r.
  - rewrite IH, <- app_assoc. reflexivity.
Qed.

Lemma frontend_id_default (name : string) :
  name <> DSR_title -> name <> DS2_title -> name <> DS3_title ->
  frontend_id name = "elden-ring".
Proof.
  intros H1 H2 H3. unfold frontend_id.
  destruct (String.eqb_spec name DSR_title); [contradiction|].
  destruct (String.eqb_spec name DS2_title); [contradiction|].
  destruct (String.eqb_spec name DS3_title); [contradiction|].
  reflexivity.
Qed.

(** C10. In the owned-games listing, a returned game whose upstream name
    is none of the three Dark Souls titles gets the frontend id
    ["elden-ring"], whatever its appid and name: the listing has one item
    per upstream game, and the item at that game's position carries that
    id next to the game's own name and appid. *)
Theorem owned_games_default_id
    (response : Response OwnedGames) (gs : list Game.t) (i : nat)
    (game : Game.t) :
  ok response = true ->
  game_count (payload response) <> Some 0 ->
  games (payload response) = Some gs ->
  nth_error gs i = Some game ->
  Game.name game <> "DARK SOULS™: REMASTERED" ->
  Game.name game <> "DARK SOULS™ II" ->
  Game.name game <> "DARK SOULS™ III" ->
  exists items,
    owned_games_route response = Sent 200 (JArr items) /\
    List.length items = List.length gs /\
    nth_error items i
    = Some (JObj [("id", JStr "elden-ring");
                  ("name", JStr (Game.name game));
                  ("appid", JNum (inject_Z (Game.appid game)))]).
Proof.
  intros Hok Hcount Hgames Hi H1 H2 H3.
  exists (map newGame gs).
  split; [|split].
  - unfold owned_games_route. rewrite Hok, Hgames. simpl.
    rewrite push_all. simpl.
    destruct (game_count (payload response)) as [[| |]|]; try reflexivity.
    now elim Hcount.
  - apply length_map.
  - rewrite nth_error_map, Hi. simpl. unfold newGame, obj. simpl.
    now rewrite (frontend_id_default (Game.name game)).
Qed.

Lemma owned_games_default_id_witness :
  exists items,
    owned_games_route
      (mkResponse 200
         (mkOwned (Some 2) (Some [Game.mk "DARK SOULS™ II" 236430;
                                  Game.mk "DARK SOULS™ 3" 374320])))
    = Sent 200 (JArr items) /\
    List.length items = 2%nat /\
    nth_error items 1
    = Some (JObj [("id", JStr "elden-ring");
                  ("name", JStr "DARK SOULS™ 3");
                  ("appid", JNum (inject_Z 374320))]).
Proof.
  apply (owned_games_default_id
           (mkResponse 200
              (mkOwned (Some 2) (Some [Game.mk "DARK SOULS™ II" 236430;
                                       Game.mk "DARK SOULS™ 3" 374320])))
           [Game.mk "DARK SOULS™ II" 236430; Game.mk "DARK SOULS™ 3" 374320]
           1 (Game.mk "DARK SOULS™ 3" 374320));
    simpl; try reflexivity; discriminate.
Defined.

(** ** Achievement enrichment *)

Example toDateString_samples :
  toDateString UTC (1700000000 * 1000) = "Tue Nov 14 2023" /\
  toDateString UTC 0 = "Thu Jan 01 1970" /\
  toDateString UTC (-1) = "Wed Dec 31 1969" /\
  toDateString (fun _ => 2 * 3600000) (1709251199 * 1000) = "Fri Mar 01 2024" /\
  toDateString UTC 8640000000000001 = "Invalid Date".
Proof. repeat split; reflexivity. Qed.

Example enrich_sample :
  enrich UTC demo_schema demo_achievements demo_rarity
  = Return [Enriched.mk "Estus Flask" "Acquire Estus Flask." "Tue Nov 14 2023"
              "https://cdn/a1.jpg" (42 # 1)].
Proof. reflexivity. Qed.

Section EnrichmentFacts.

Variable LocalTZA : Z -> Z.
Variable playerAchievements : list Player.t.
Variable percentages : list Rarity.t.

Lemma find_percentage_covered (s : Schema.t) :
  covered percentages s ->
  exists r, find_percentage percentages s = Some r /\
            In r percentages /\ Rarity.name r = Schema.name s.
Proof.
  intros (r0 & Hin & Hname). unfold find_percentage.
  destruct (find _ percentages) as [r|] eqn:F.
  - exists r. apply find_some in F as [Hr Heq].
    apply String.eqb_eq in Heq. auto.
  - apply (find_none _ _ F) in Hin. simpl in Hin.
    apply String.eqb_neq in Hin. contradiction.
Qed.

Lemma find_percentage_missing (s : Schema.t) :
  (forall r, In r percentages -> Rarity.name r <> Schema.name s) ->
  find_percentage percentages s = None.
Proof.
  intros Hno. unfold find_percentage.
  destruct (find _ percentages) as [r|] eqn:F; [|reflexivity].
  apply find_some in F as [Hr Heq]. apply String.eqb_eq in Heq.
  now elim (Hno r Hr).
Qed.

Lemma skipn_step {A} (n : nat) (l : list A) (x : A) (t : list A) :
  skipn n l = x :: t -> nth_error l n = Some x /\ skipn (S n) l = t.
Proof.
  revert l. induction n as [|n IH]; intros [|y l] H; simpl in H;
    try discriminate.
  - injection H as -> ->. auto.
  - destruct (IH l H) as [E1 E2]. auto.
Qed.

(** The loop on aligned, covered inputs: it completes, and what it
    pushes is the enrichment of the achieved positions. *)
Lemma forEach_aligned (rest : list Schema.t) :
  forall (index : nat) (acc : list Enriched.t),
    List.length (skipn index playerAchievements) = List.length rest ->
    (forall s, In s rest -> covered percentages s) ->
    exists out,
      forEach LocalTZA playerAchievements percentages index rest acc
      = Return (acc ++ out) /\
      Forall2 (enriches LocalTZA percentages)
        (achieved_positions rest (skipn index playerAchievements)) out.
Proof.
  induction rest as [|s rest IH]; intros index acc Hlen Hcov.
  - exists []. simpl. rewrite app_nil_r. split; [reflexivity|].
    unfold achieved_positions. simpl. constructor.
  - destruct (skipn index playerAchievements) as [|p tl] eqn:Hskip;
      [discriminate|].
    destruct (skipn_step _ _ _ _ Hskip) as [Hp Htl].
    simpl in Hlen. injection Hlen as Hlen. rewrite <- Htl in Hlen.
    assert (Hcov' : forall s', In s' rest -> covered percentages s')
      by (intros s' Hs'; apply Hcov; now right).
    simpl. rewrite Hp. simpl.
    unfold achieved_positions. simpl.
    destruct (truthy (Player.achieved p)) eqn:Ht.
    + destruct (find_percentage_covered s (Hcov s (or_introl eq_refl)))
        as (r & Hfind & Hin & Hname).
      rewrite Hfind. simpl.
      destruct (IH (S index)
                   (acc ++ [resultAchievement LocalTZA s p (Rarity.percent r)])
                   Hlen Hcov') as (out & Hrun & Hout).
      exists (resultAchievement LocalTZA s p (Rarity.percent r) :: out).
      split.
      * rewrite Hrun, <- app_assoc. reflexivity.
      * constructor.
        -- repeat split; try reflexivity. exists r. auto.
        -- rewrite Htl in Hout. exact Hout.
    + destruct (IH (S index) acc Hlen Hcov') as (out & Hrun & Hout).
      exists out. split; [exact Hrun|].
      rewrite Htl in Hout. exact Hout.
Qed.

(** The loop throws as soon as one of the positions it still has to
    visit is achieved and has no rarity entry. *)
Lemma forEach_missing (rest : list Schema.t) :
  forall (index : nat) (acc : list Enriched.t) (i : nat) (s : Schema.t)
         (p : Player.t),
    nth_error rest i = Some s ->
    nth_error playerAchievements (index + i) = Some p ->
    truthy (Player.achieved p) = true ->
    find_percentage percentages s = None ->
    exists msg,
      forEach LocalTZA playerAchievements percentages index rest acc
      = Throw (TypeError msg).
Proof.
  induction rest as [|s0 rest IH]; intros index acc i s p Hs Hp Ht Hnone.
  - destruct i; discriminate.
  - destruct i as [|i]; simpl in Hs.
    + injection Hs as ->. rewrite Nat.add_0_r in Hp.
      simpl. rewrite Hp. simpl. rewrite Ht, Hnone. simpl. eauto.
    + simpl.
      destruct (nth_error playerAchievements index) as [p0|]; simpl;
        [|eauto].
      rewrite <- Nat.add_succ_comm in Hp.
      destruct (truthy (Player.achieved p0)).
      * destruct (find_percentage percentages s0) as [r|]; simpl; [|eauto].
        now apply (IH (S index) _ i s p).
      * now apply (IH (S index) _ i s p).
Qed.

(** The loop throws when the player sequence ends before the schema. *)
Lemma forEach_short (rest : list Schema.t) :
  forall (index : nat) (acc : list Enriched.t),
    (index <= List.length playerAchievements)%nat ->
    (List.length playerAchievements < index + List.length rest)%nat ->
    exists msg,
      forEach LocalTZA playerAchievements percentages index rest acc
      = Throw (TypeError msg).
Proof.
  induction rest as [|s rest IH]; intros index acc Hle Hlt; simpl in *.
  - lia.
  - destruct (nth_error playerAchievements index) as [p|] eqn:Hp; simpl;
      [|eauto].
    assert (Hin : (index < List.length playerAchievements)%nat)
      by (apply nth_error_Some; congruence).
    destruct (truthy (Player.achieved p)).
    + destruct (find_percentage percentages s) as [r|]; simpl; [|eauto].
      apply IH; lia.
    + apply IH; lia.
Qed.

End EnrichmentFacts.

(** The loop reads the player sequence only at the indices it visits. *)
Lemma forEach_reads (LocalTZA : Z -> Z) (players players' : list Player.t)
    (percentages : list Rarity.t) (rest : list Schema.t) :
  forall (index : nat) (acc : list Enriched.t),
    (forall i, (index <= i < index + List.length rest)%nat ->
               nth_error players i = nth_error players' i) ->
    forEach LocalTZA players percentages index rest acc
    = forEach LocalTZA players' percentages index rest acc.
Proof.
  induction rest as [|s rest IH]; intros index acc Hsame; simpl in *.
  - reflexivity.
  - rewrite <- (Hsame index) by lia.
    destruct (nth_error players index) as [p|]; simpl; [|reflexivity].
    destruct (truthy (Player.achieved p)).
    + destruct (find_percentage percentages s) as [r|]; simpl; [|reflexivity].
      apply IH. intros i Hi. apply Hsame. lia.
    + apply IH. intros i Hi. apply Hsame. lia.
Qed.

Lemma none_achieved_positions (schema : list Schema.t) (players : list Player.t) :
  forallb (fun p => negb (truthy (Player.achieved p))) players = true ->
  achieved_positions schema players = [].
Proof.
  unfold achieved_positions.
  revert players. induction schema as [|s schema IH]; intros [|p players] H;
    simpl in *; try reflexivity.
  apply andb_true_iff in H as [Hp Hrest].
  apply negb_true_iff in Hp. rewrite Hp. now apply IH.
Qed.

(** C7. On a player sequence as long as the schema and a rarity table
    that has an entry for every schema name, [enrich] completes with
    exactly one enriched achievement per achieved position, in schema
    order, and nothing for the others; when no position is achieved the
    result is the empty sequence. *)
Theorem enrich_achieved_in_schema_order
    (LocalTZA : Z -> Z) (schema : list Schema.t) (players : list Player.t)
    (percentages : list Rarity.t) :
  List.length players = List.length schema ->
  (forall s, In s schema -> covered percentages s) ->
  exists result,
    enrich LocalTZA schema players percentages = Return result /\
    Forall2 (enriches LocalTZA percentages)
            (achieved_positions schema players) result /\
    (forallb (fun p => negb (truthy (Player.achieved p))) players = true ->
     result = []).
Proof.
  intros Hlen Hcov.
  destruct (forEach_aligned LocalTZA players percentages schema 0 [] Hlen Hcov)
    as (out & Hrun & Hout).
  exists out. simpl in Hrun, Hout. repeat split; try assumption.
  intros Hnone. rewrite (none_achieved_positions schema players Hnone) in Hout.
  now inversion Hout.
Qed.

Lemma enrich_achieved_in_schema_order_witness :
  exists result,
    enrich UTC demo_schema demo_achievements demo_rarity = Return result /\
    Forall2 (enriches UTC demo_rarity)
            (achieved_positions demo_schema demo_achievements) result /\
    (forallb (fun p => negb (truthy (Player.achieved p))) demo_achievements = true ->
     result = []).
Proof.
  apply (enrich_achieved_in_schema_order UTC demo_schema demo_achievements
           demo_rarity).
  - reflexivity.
  - intros s [<-|[<-|[]]].
    + exists (Rarity.mk "A0" (10 # 1)). simpl. auto.
    + exists (Rarity.mk "A1" (42 # 1)). simpl. auto.
Defined.

(** C8. When some achieved position has no rarity entry named after its
    schema entry, [enrich] throws: the whole call fails, nothing is
    returned, and the route ends in [next(err)] without a response. *)
Theorem enrich_missing_rarity_fails
    (LocalTZA : Z -> Z) (schema : list Schema.t) (players : list Player.t)
    (percentages : list Rarity.t) (i : nat) (s : Schema.t) (p : Player.t) :
  nth_error schema i = Some s ->
  nth_error players i = Some p ->
  truthy (Player.achieved p) = true ->
  (forall r, In r percentages -> Rarity.name r <> Schema.name s) ->
  exists msg,
    enrich LocalTZA schema players percentages = Throw (TypeError msg) /\
    forall files appid st st',
      files (schema_file appid) = Some schema ->
      ok (mkResponse st players) = true ->
      ok (mkResponse st' percentages) = true ->
      achievements_route LocalTZA files appid
        (mkResponse st players) (mkResponse st' percentages)
      = Next (TypeError msg).
Proof.
  intros Hs Hp Ht Hno.
  destruct (forEach_missing LocalTZA players percentages schema 0 [] i s p
              Hs Hp Ht (find_percentage_missing percentages s Hno))
    as (msg & Hrun).
  exists msg. split; [exact Hrun|].
  intros files appid st st' Hfile Hok Hok'.
  unfold achievements_route, require.
  rewrite Hok, Hfile. simpl. rewrite Hok'. simpl.
  unfold enrich in Hrun. unfold enrich. now rewrite Hrun.
Qed.

Lemma enrich_missing_rarity_fails_witness :
  exists msg,
    enrich UTC demo_schema demo_achievements [Rarity.mk "A0" (10 # 1)]
    = Throw (TypeError msg) /\
    forall files appid st st',
      files (schema_file appid) = Some demo_schema ->
      ok (mkResponse st demo_achievements) = true ->
      ok (mkResponse st' [Rarity.mk "A0" (10 # 1)]) = true ->
      achievements_route UTC files appid
        (mkResponse st demo_achievements)
        (mkResponse st' [Rarity.mk "A0" (10 # 1)])
      = Next (TypeError msg).
Proof.
  apply (enrich_missing_rarity_fails UTC demo_schema demo_achievements
           [Rarity.mk "A0" (10 # 1)] 1
           (Schema.mk "A1" "Estus Flask" "Acquire Estus Flask." "https://cdn/a1.jpg")
           (Player.mk "A1" 1 1700000000)).
  - reflexivity.
  - reflexivity.
  - reflexivity.
  - intros r [<-|[]]. discriminate.
Defined.

(** C9, as stated, fails: with one schema entry and two player entries
    the lengths differ and [enrich] completes with an ordinary result. *)
Lemma enrich_length_mismatch_accepted :
  List.length (demo_achievements ++ [Player.mk "A2" 1 0])
  <> List.length demo_schema /\
  enrich UTC demo_schema (demo_achievements ++ [Player.mk "A2" 1 0]) demo_rarity
  = Return [Enriched.mk "Estus Flask" "Acquire Estus Flask." "Tue Nov 14 2023"
              "https://cdn/a1.jpg" (42 # 1)] /\
  forall e,
    enrich UTC demo_schema (demo_achievements ++ [Player.mk "A2" 1 0]) demo_rarity
    <> Throw e.
Proof. split; [discriminate | split; [reflexivity | discriminate]]. Qed.

(** C9, amended. When the two lengths differ there is no error of its
    own: a player sequence shorter than the schema makes [enrich] throw a
    [TypeError], and one longer than the schema has its surplus entries
    ignored, [enrich] giving what it gives on the first [length schema]
    player entries. *)
Theorem enrich_length_mismatch
    (LocalTZA : Z -> Z) (schema : list Schema.t) (players : list Player.t)
    (percentages : list Rarity.t) :
  List.length players <> List.length schema ->
  ((List.length players < List.length schema)%nat /\
   exists msg,
     enrich LocalTZA schema players percentages = Throw (TypeError msg))
  \/
  ((List.length schema < List.length players)%nat /\
   enrich LocalTZA schema players percentages
   = enrich LocalTZA schema (firstn (List.length schema) players) percentages).
Proof.
  intros Hneq.
  destruct (Nat.lt_ge_cases (List.length players) (List.length schema))
    as [Hshort|Hlong].
  - left. split; [assumption|].
    apply forEach_short; simpl; lia.
  - right. split; [lia|].
    apply forEach_reads. intros i Hi.
    rewrite nth_error_firstn.
    destruct (Nat.ltb_spec i (List.length schema)); [reflexivity | simpl in Hi; lia].
Qed.

Lemma enrich_length_mismatch_witness :
  ((List.length (firstn 1 demo_achievements) < List.length demo_schema)%nat /\
   exists msg,
     enrich UTC demo_schema (firstn 1 demo_achievements) demo_rarity
     = Throw (TypeError msg))
  \/
  ((List.length demo_schema < List.length (firstn 1 demo_achievements))%nat /\
   enrich UTC demo_schema (firstn 1 demo_achievements) demo_rarity
   = enrich UTC demo_schema
       (firstn (List.length demo_schema) (firstn 1 demo_achievements))
       demo_rarity).
Proof.
  apply (enrich_length_mismatch UTC demo_schema (firstn 1 demo_achievements)
           demo_rarity).
  simpl. discriminate.
Defined.

(** * Further properties of the handlers *)

(** ** Boss progress: the first milestone that is not defeated decides *)

Lemma scan_unmatched bosses achievements index b rest :
  defeated achievements b = false ->
  undefeated achievements b = false ->
  scan bosses achievements index (b :: rest)
  = if candidate_achieved achievements b
    then Return (complete_at (Boss.name b))
    else Throw (TypeError
                  "Cannot read properties of undefined (reading 'achieved')").
Proof.
  intros Hd Hu.
  destruct (Boss.apiname b) as [id|ids] eqn:E.
  - unfold defeated, undefeated in Hd, Hu. rewrite E in Hd, Hu.
    unfold candidate_achieved. simpl. rewrite E. simpl.
    fold (entry achievements id).
    destruct (entry achievements id) as [a|].
    + destruct (truthy (Player.achieved a)); discriminate.
    + rewrite existsb_filter.
      now destruct (existsb _ achievements).
  - rewrite (scan_branching _ _ _ _ ids _ E).
    unfold candidate_achieved, any_achieved. now rewrite E.
Qed.

(** Either every milestone is defeated, or the sequence splits at the
    first one that is not. *)
Lemma first_open (achievements : list Player.t) (bosses : list Boss.t) :
  forallb (defeated achievements) bosses = true \/
  exists pre b post,
    bosses = pre ++ b :: post /\
    forallb (defeated achievements) pre = true /\
    defeated achievements b = false.
Proof.
  induction bosses as [|x bosses IH]; [now left|].
  destruct (defeated achievements x) eqn:Hx.
  - destruct IH as [Hall | (pre & b & post & E & Hpre & Hb)].
    + left. simpl. now rewrite Hx.
    + right. exists (x :: pre), b, post. subst bosses. simpl.
      rewrite Hx. auto.
  - right. exists [], x, bosses. auto.
Qed.

Lemma firstn_prefix {A} (pre rest : list A) :
  firstn (List.length pre) (pre ++ rest) = pre.
Proof. induction pre as [|x pre IH]; simpl; [now destruct rest | now rewrite IH]. Qed.

Lemma nth_error_middle {A} (pre post : list A) (b : A) :
  nth_error (pre ++ b :: post) (List.length pre) = Some b.
Proof. induction pre as [|x pre IH]; simpl; auto. Qed.

Lemma all_defeated_response (bosses : list Boss.t) (achievements : list Player.t) :
  forallb (defeated achievements) bosses = true ->
  evaluate bosses achievements
  = Return
      (obj [("response",
             Some (obj [("complete", Some (JBool true));
                        ("recent_boss",
                         option_map boss_json
                           (js_index bosses (Z.of_nat (List.length bosses) - 1)))]))]).
Proof.
  intros Hall. unfold evaluate.
  rewrite <- (app_nil_r bosses) at 2.
  now rewrite scan_prefix.
Qed.

(** X1. A next-boss verdict is only ever returned for the first milestone
    that is not defeated: it sits at some index [K > 0], it has an
    exact-match entry that is not achieved, every milestone before it is
    defeated, and [recent_boss] names the milestone at [K - 1]. *)
Theorem evaluate_next_boss_sound
    (bosses : list Boss.t) (achievements : list Player.t) (n r : string) :
  evaluate bosses achievements = Return (next_boss_found n r) ->
  exists (K : nat) (recent next : Boss.t),
    (0 < K)%nat /\
    forallb (defeated achievements) (firstn K bosses) = true /\
    nth_error bosses (K - 1) = Some recent /\
    nth_error bosses K = Some next /\
    undefeated achievements next = true /\
    n = Boss.name next /\ r = Boss.name recent.
Proof.
  intros Hrun.
  destruct (first_open achievements bosses)
    as [Hall | (pre & b & post & E & Hpre & Hb)].
  - rewrite (all_defeated_response bosses achievements Hall) in Hrun.
    unfold obj in Hrun. simpl in Hrun. discriminate.
  - rewrite (scan_reaches bosses achievements pre b post E Hpre) in Hrun.
    destruct (undefeated achievements b) eqn:Hu.
    + rewrite scan_undefeated in Hrun by assumption.
      destruct pre as [|p0 pre'] using rev_ind.
      * simpl in Hrun. discriminate.
      * clear IHpre'. rewrite length_app in Hrun. simpl List.length in Hrun.
        replace (Z.of_nat (List.length pre' + 1) - 1)
          with (Z.of_nat (List.length pre')) in Hrun by lia.
        rewrite js_index_nat in Hrun.
        assert (Hrecent : nth_error bosses (List.length pre') = Some p0).
        { rewrite E, <- app_assoc. apply nth_error_middle. }
        rewrite Hrecent in Hrun. simpl in Hrun.
        injection Hrun as Hn Hr.
        exists (List.length (pre' ++ [p0])), p0, b.
        rewrite E at 1 3.
        rewrite firstn_prefix, nth_error_middle.
        rewrite length_app. simpl List.length.
        replace (List.length pre' + 1 - 1)%nat with (List.length pre') by lia.
        repeat split; auto; lia.
    + rewrite scan_unmatched in Hrun by assumption.
      destruct (candidate_achieved achievements b); discriminate.
Qed.

Lemma evaluate_next_boss_sound_witness :
  exists (K : nat) (recent next : Boss.t),
    (0 < K)%nat /\
    forallb (defeated (demo_player 1 0 0 0 0)) (firstn K demo_bosses) = true /\
    nth_error demo_bosses (K - 1) = Some recent /\
    nth_error demo_bosses K = Some next /\
    undefeated (demo_player 1 0 0 0 0) next = true /\
    "Chaos Witch Quelaag" = Boss.name next /\
    "Bell Gargoyles" = Boss.name recent.
Proof.
  apply (evaluate_next_boss_sound demo_bosses (demo_player 1 0 0 0 0)).
  reflexivity.
Defined.

Lemma js_index_prefix {A} (pre : list A) (b : A) (post : list A) :
  js_index (pre ++ b :: post) (Z.of_nat (List.length pre) - 1)
  = js_index (pre ++ [b]) (Z.of_nat (List.length pre) - 1).
Proof.
  unfold js_index.
  destruct (Z.ltb_spec (Z.of_nat (List.length pre) - 1) 0) as [|Hge];
    [reflexivity|].
  rewrite !nth_error_app1 by lia. reflexivity.
Qed.

Lemma scan_list_irrelevant bosses bosses' achievements index b rest rest' :
  defeated achievements b = false ->
  js_index bosses (index - 1) = js_index bosses' (index - 1) ->
  scan bosses achievements index (b :: rest)
  = scan bosses' achievements index (b :: rest').
Proof.
  intros Hb Hprev.
  destruct (undefeated achievements b) eqn:Hu.
  - rewrite !scan_undefeated by assumption. now rewrite Hprev.
  - now rewrite !scan_unmatched by assumption.
Qed.

(** X2. The milestones after the first one that is not defeated are
    never consulted: whatever follows it in the sequence, the outcome is
    the one of the sequence cut right after it. *)
Theorem evaluate_ignores_later_milestones
    (pre post : list Boss.t) (b : Boss.t) (achievements : list Player.t) :
  forallb (defeated achievements) pre = true ->
  defeated achievements b = false ->
  evaluate (pre ++ b :: post) achievements
  = evaluate (pre ++ [b]) achievements.
Proof.
  intros Hpre Hb.
  rewrite (scan_reaches (pre ++ b :: post) achievements pre b post eq_refl Hpre).
  rewrite (scan_reaches (pre ++ [b]) achievements pre b [] eq_refl Hpre).
  apply scan_list_irrelevant; [assumption|].
  apply js_index_prefix.
Qed.

Lemma evaluate_ignores_later_milestones_witness :
  evaluate ([Boss.mk (Single "ACH_GARGOYLES") "Bell Gargoyles"]
            ++ Boss.mk (Single "ACH_QUELAAG") "Chaos Witch Quelaag"
            :: [Boss.mk (Branching ["END_A"; "END_B"; "END_C"]) "Elden Beast"])
           (demo_player 1 0 0 1 0)
  = evaluate ([Boss.mk (Single "ACH_GARGOYLES") "Bell Gargoyles"]
              ++ [Boss.mk (Single "ACH_QUELAAG") "Chaos Witch Quelaag"])
             (demo_player 1 0 0 1 0).
Proof.
  apply (evaluate_ignores_later_milestones
           [Boss.mk (Single "ACH_GARGOYLES") "Bell Gargoyles"]
           [Boss.mk (Branching ["END_A"; "END_B"; "END_C"]) "Elden Beast"]
           (Boss.mk (Single "ACH_QUELAAG") "Chaos Witch Quelaag")
           (demo_player 1 0 0 1 0)); reflexivity.
Defined.

Lemma prefix_append (t r : string) : String.prefix t (t ++ r)%string = true.
Proof.
  induction t as [|c t IH]; simpl; [now destruct r|].
  destruct (ascii_dec c c) as [_|N]; [exact IH | now elim N].
Qed.

Lemma str_includes_prefix (s t : string) :
  String.prefix t s = true -> str_includes s t = true.
Proof. intros H. destruct s; cbn [str_includes]; now rewrite H. Qed.

(** [s.includes(t)] holds as soon as [t] occurs somewhere in [s]. *)
Lemma str_includes_occurrence (l t r : string) :
  str_includes (l ++ t ++ r)%string t = true.
Proof.
  induction l as [|c l IH].
  - apply str_includes_prefix. exact (prefix_append t r).
  - change (String c l ++ t ++ r)%string with (String c (l ++ t ++ r))%string.
    cbn [str_includes]. rewrite IH. apply orb_true_r.
Qed.

Lemma append_empty_r (s : string) : (s ++ "")%string = s.
Proof. induction s as [|c s IH]; simpl; [reflexivity | now rewrite IH]. Qed.

Lemma str_includes_refl (s : string) : str_includes s s = true.
Proof.
  rewrite <- (append_empty_r s) at 1.
  apply (str_includes_occurrence "" s "").
Qed.

Lemma strict_eq_includes (x : string) (n : ApiName) :
  strict_eq x n = true -> includes n x = true.
Proof.
  destruct n as [id|ids]; simpl; [|discriminate].
  intros H. apply String.eqb_eq in H. subst. apply str_includes_refl.
Qed.

Lemma no_candidate (achievements : list Player.t) (b : Boss.t) :
  (forall a, In a achievements ->
             includes (Boss.apiname b) (Player.apiname a) = false) ->
  defeated achievements b = false /\
  undefeated achievements b = false /\
  candidate_achieved achievements b = false.
Proof.
  intros Hnone.
  assert (Hentry : forall id, Boss.apiname b = Single id ->
                              entry achievements id = None).
  { intros id E. unfold entry.
    destruct (find _ achievements) as [a|] eqn:F; [|reflexivity].
    apply find_some in F as [Hin Heq].
    specialize (Hnone a Hin).
    rewrite (strict_eq_includes (Player.apiname a) (Boss.apiname b)) in Hnone;
      [discriminate | now rewrite E]. }
  unfold defeated, undefeated, candidate_achieved.
  repeat split.
  - destruct (Boss.apiname b) as [id|ids]; [|reflexivity].
    now rewrite (Hentry id eq_refl).
  - destruct (Boss.apiname b) as [id|ids]; [|reflexivity].
    now rewrite (Hentry id eq_refl).
  - destruct (existsb _ achievements) eqn:Ex; [|reflexivity].
    apply existsb_exists in Ex as (a & Hin & Ha).
    rewrite (Hnone a Hin) in Ha. discriminate.
Qed.

(** X3. When the scan reaches a milestone for which the player has no
    entry at all (no entry's identifier is accepted by
    [boss.apiname.includes], so none equals it either), the handler throws
    a [TypeError]; in particular an empty achievement list makes every
    non-empty boss sequence throw. *)
Theorem evaluate_missing_entry_throws
    (bosses pre post : list Boss.t) (b : Boss.t) (achievements : list Player.t) :
  bosses = pre ++ b :: post ->
  forallb (defeated achievements) pre = true ->
  (forall a, In a achievements ->
             includes (Boss.apiname b) (Player.apiname a) = false) ->
  evaluate bosses achievements
  = Throw (TypeError "Cannot read properties of undefined (reading 'achieved')").
Proof.
  intros E Hpre Hnone.
  destruct (no_candidate achievements b Hnone) as (Hd & Hu & Hc).
  rewrite (scan_reaches bosses achievements pre b post E Hpre).
  rewrite scan_unmatched by assumption.
  now rewrite Hc.
Qed.

Lemma evaluate_missing_entry_throws_witness :
  evaluate demo_bosses []
  = Throw (TypeError "Cannot read properties of undefined (reading 'achieved')").
Proof.
  apply (evaluate_missing_entry_throws demo_bosses []
           (skipn 1 demo_bosses)
           (Boss.mk (Single "ACH_GARGOYLES") "Bell Gargoyles") []).
  - reflexivity.
  - reflexivity.
  - intros a [].
Defined.

(** X4. A milestone whose [apiname] is a string without an exact-match
    entry is searched with [String.prototype.includes]: an achieved entry
    whose identifier merely occurs inside the milestone's identifier ends
    the scan with [complete = true] and that milestone as [recent_boss]. *)
Theorem evaluate_substring_candidate
    (bosses pre post : list Boss.t) (b : Boss.t) (id l r : string)
    (achievements : list Player.t) (a : Player.t) :
  bosses = pre ++ b :: post ->
  forallb (defeated achievements) pre = true ->
  Boss.apiname b = Single id ->
  entry achievements id = None ->
  In a achievements ->
  id = (l ++ Player.apiname a ++ r)%string ->
  truthy (Player.achieved a) = true ->
  evaluate bosses achievements = Return (complete_at (Boss.name b)).
Proof.
  intros E Hpre Hb Hentry Ha Hid Ht.
  rewrite (scan_reaches bosses achievements pre b post E Hpre).
  rewrite scan_unmatched.
  - replace (candidate_achieved achievements b) with true; [reflexivity|].
    symmetry. apply existsb_exists. exists a. split; [assumption|].
    rewrite Ht, Hb, Hid. simpl. now rewrite str_includes_occurrence.
  - unfold defeated. now rewrite Hb, Hentry.
  - unfold undefeated. now rewrite Hb, Hentry.
Qed.

Lemma evaluate_substring_candidate_witness :
  evaluate [Boss.mk (Single "ACH_10") "Gwyn, Lord of Cinder"]
           [Player.mk "ACH_1" 1 1726438602]
  = Return (complete_at "Gwyn, Lord of Cinder").
Proof.
  apply (evaluate_substring_candidate
           [Boss.mk (Single "ACH_10") "Gwyn, Lord of Cinder"] [] []
           (Boss.mk (Single "ACH_10") "Gwyn, Lord of Cinder")
           "ACH_10" "" "0"
           [Player.mk "ACH_1" 1 1726438602] (Player.mk "ACH_1" 1 1726438602)).
  - reflexivity.
  - reflexivity.
  - reflexivity.
  - reflexivity.
  - simpl. auto.
  - reflexivity.
  - reflexivity.
Defined.


(** ** Boss progress: the order of the player's entries *)

Lemma existsb_permutation {A} (f : A -> bool) (l l' : list A) :
  Permutation l l' -> existsb f l = existsb f l'.
Proof.
  induction 1 as [|x l l' _ IH|x y l|l l' l'' _ IH1 _ IH2]; simpl.
  - reflexivity.
  - now rewrite IH.
  - now destruct (f x), (f y).
  - now rewrite IH1.
Qed.

Lemma entry_permutation (achievements achievements' : list Player.t) (id : string) :
  NoDup (map Player.apiname achievements) ->
  Permutation achievements achievements' ->
  entry achievements id = entry achievements' id.
Proof.
  intros Hnd Hperm.
  assert (Hnd' : NoDup (map Player.apiname achievements')).
  { apply (Permutation_NoDup (l := map Player.apiname achievements));
      [now apply Permutation_map | assumption]. }
  destruct (entry achievements id) as [a|] eqn:E.
  - apply find_some in E as [Hin Heq]. apply String.eqb_eq in Heq. subst id.
    symmetry. apply entry_unique; [assumption|].
    now apply (Permutation_in a Hperm).
  - destruct (entry achievements' id) as [a'|] eqn:E'; [|reflexivity].
    apply find_some in E' as [Hin Heq].
    apply (Permutation_in a' (Permutation_sym Hperm)) in Hin.
    apply (find_none _ _ E) in Hin. simpl in Hin. congruence.
Qed.

Lemma scan_permutation bosses (achievements achievements' : list Player.t) :
  NoDup (map Player.apiname achievements) ->
  Permutation achievements achievements' ->
  forall rest index,
    scan bosses achievements index rest = scan bosses achievements' index rest.
Proof.
  intros Hnd Hperm.
  assert (Hdef : forall b, defeated achievements b = defeated achievements' b).
  { intros b. unfold defeated. destruct (Boss.apiname b); [|reflexivity].
    now rewrite (entry_permutation achievements achievements'). }
  assert (Hundef : forall b, undefeated achievements b = undefeated achievements' b).
  { intros b. unfold undefeated. destruct (Boss.apiname b); [|reflexivity].
    now rewrite (entry_permutation achievements achievements'). }
  assert (Hcand : forall b, candidate_achieved achievements b
                            = candidate_achieved achievements' b).
  { intros b. now apply existsb_permutation. }
  induction rest as [|b rest IH]; intros index; [reflexivity|].
  destruct (defeated achievements b) eqn:Hd.
  - rewrite !scan_defeated; [apply IH | now rewrite <- Hdef | assumption].
  - destruct (undefeated achievements b) eqn:Hu.
    + rewrite !scan_undefeated; [reflexivity | now rewrite <- Hundef | assumption].
    + rewrite !scan_unmatched;
        [now rewrite Hcand | now rewrite <- Hdef | now rewrite <- Hundef
         | assumption | assumption].
Qed.

(** X6. When the player's entries carry pairwise distinct identifiers,
    the order in which upstream lists them does not matter: any
    rearrangement of the achievement list gives the same outcome. *)
Theorem evaluate_permutation
    (bosses : list Boss.t) (achievements achievements' : list Player.t) :
  NoDup (map Player.apiname achievements) ->
  Permutation achievements achievements' ->
  evaluate bosses achievements = evaluate bosses achievements'.
Proof.
  intros Hnd Hperm. unfold evaluate. now apply scan_permutation.
Qed.

Lemma evaluate_permutation_witness :
  evaluate demo_bosses [Player.mk "ACH_QUELAAG" 0 0; Player.mk "ACH_GARGOYLES" 1 5]
  = evaluate demo_bosses [Player.mk "ACH_GARGOYLES" 1 5; Player.mk "ACH_QUELAAG" 0 0].
Proof.
  apply (evaluate_permutation demo_bosses
           [Player.mk "ACH_QUELAAG" 0 0; Player.mk "ACH_GARGOYLES" 1 5]
           [Player.mk "ACH_GARGOYLES" 1 5; Player.mk "ACH_QUELAAG" 0 0]).
  - simpl. repeat constructor; simpl; intuition discriminate.
  - apply perm_swap.
Defined.

(** ** Achievement enrichment: when it completes, and on what it depends *)

Lemma find_percentage_covers (percentages : list Rarity.t) (s : Schema.t)
    (r : Rarity.t) :
  find_percentage percentages s = Some r ->
  In r percentages /\ Rarity.name r = Schema.name s.
Proof.
  unfold find_percentage. intros F.
  apply find_some in F as [Hin Heq]. apply String.eqb_eq in Heq. auto.
Qed.

(** What a completed loop tells about its input and its result. *)
Lemma forEach_returned (LocalTZA : Z -> Z) (players : list Player.t)
    (percentages : list Rarity.t) (rest : list Schema.t) :
  forall (index : nat) (acc result : list Enriched.t),
    forEach LocalTZA players percentages index rest acc = Return result ->
    (index + List.length rest <= List.length players \/ rest = [])%nat /\
    (forall i s p,
        nth_error rest i = Some s ->
        nth_error players (index + i) = Some p ->
        truthy (Player.achieved p) = true ->
        covered percentages s) /\
    exists out,
      result = acc ++ out /\
      Forall2 (enriches LocalTZA percentages)
              (achieved_positions rest (skipn index players)) out.
Proof.
  induction rest as [|s rest IH]; intros index acc result Hrun.
  - simpl in Hrun. injection Hrun as <-.
    split; [now right|]. split.
    + intros i s p Hs. destruct i; discriminate.
    + exists []. rewrite app_nil_r. split; [reflexivity|].
      unfold achieved_positions. simpl. constructor.
  - simpl in Hrun.
    destruct (nth_error players index) as [p|] eqn:Hp; [|discriminate].
    simpl in Hrun.
    assert (Hlt : (index < List.length players)%nat)
      by (apply nth_error_Some; congruence).
    assert (Hskip : skipn index players = p :: skipn (S index) players).
    { rewrite <- (firstn_skipn_middle index players Hp) at 1.
      rewrite skipn_app, skipn_all2 by (rewrite length_firstn; lia).
      rewrite length_firstn.
      replace (index - Nat.min index (List.length players))%nat with 0%nat by lia.
      reflexivity. }
    rewrite Hskip. unfold achieved_positions. simpl.
    destruct (truthy (Player.achieved p)) eqn:Ht.
    + destruct (find_percentage percentages s) as [r|] eqn:Hfind;
        [|discriminate].
      simpl in Hrun.
      destruct (find_percentage_covers percentages s r Hfind) as [Hin Hname].
      destruct (IH _ _ _ Hrun) as (Hlen & Hcov & out & Hres & Hout).
      split; [left; simpl; destruct Hlen as [Hl | ->]; simpl; lia|].
      split.
      * intros i s' p' Hs' Hp' Ht'. destruct i as [|i]; simpl in Hs'.
        -- injection Hs' as <-. exists r. auto.
        -- apply (Hcov i s' p'); auto.
           now rewrite <- Nat.add_succ_comm in Hp'.
      * exists (resultAchievement LocalTZA s p (Rarity.percent r) :: out).
        split; [now rewrite Hres, <- app_assoc|].
        constructor; [|exact Hout].
        repeat split; try reflexivity. exists r. auto.
    + destruct (IH _ _ _ Hrun) as (Hlen & Hcov & out & Hres & Hout).
      split; [left; simpl; destruct Hlen as [Hl | ->]; simpl; lia|].
      split.
      * intros i s' p' Hs' Hp' Ht'. destruct i as [|i]; simpl in Hs'.
        -- injection Hs' as <-. rewrite Nat.add_0_r in Hp'. congruence.
        -- apply (Hcov i s' p'); auto.
           now rewrite <- Nat.add_succ_comm in Hp'.
      * exists out. auto.
Qed.

(** The loop completes when the player sequence reaches as far as the
    schema and every achieved position it visits is covered. *)
Lemma forEach_completes (LocalTZA : Z -> Z) (players : list Player.t)
    (percentages : list Rarity.t) (rest : list Schema.t) :
  forall (index : nat) (acc : list Enriched.t),
    (index + List.length rest <= List.length players)%nat ->
    (forall i s p,
        nth_error rest i = Some s ->
        nth_error players (index + i) = Some p ->
        truthy (Player.achieved p) = true ->
        covered percentages s) ->
    exists result,
      forEach LocalTZA players percentages index rest acc = Return result.
Proof.
  induction rest as [|s rest IH]; intros index acc Hlen Hcov; simpl in *.
  - eauto.
  - destruct (nth_error players index) as [p|] eqn:Hp.
    2:{ apply nth_error_None in Hp. lia. }
    simpl.
    assert (Hcov' : forall i s' p',
               nth_error rest i = Some s' ->
               nth_error players (S index + i) = Some p' ->
               truthy (Player.achieved p') = true ->
               covered percentages s').
    { intros i s' p' Hs' Hp' Ht'. apply (Hcov (S i) s' p'); auto.
      now rewrite <- Nat.add_succ_comm. }
    destruct (truthy (Player.achieved p)) eqn:Ht.
    + assert (Hs : covered percentages s).
      { apply (Hcov 0%nat s p); auto. now rewrite Nat.add_0_r. }
      destruct (find_percentage_covered percentages s Hs) as (r & Hfind & _).
      rewrite Hfind. simpl. apply IH; [lia | exact Hcov'].
    + apply IH; [lia | exact Hcov'].
Qed.

(** X7. [enrich] completes with a result exactly when the player
    sequence is at least as long as the schema and every position that is
    achieved has a rarity entry named after its schema entry; otherwise it
    throws. *)
Theorem enrich_returns_iff
    (LocalTZA : Z -> Z) (schema : list Schema.t) (players : list Player.t)
    (percentages : list Rarity.t) :
  (exists result, enrich LocalTZA schema players percentages = Return result)
  <->
  ((List.length schema <= List.length players)%nat /\
   forall i s p,
     nth_error schema i = Some s ->
     nth_error players i = Some p ->
     truthy (Player.achieved p) = true ->
     covered percentages s).
Proof.
  unfold enrich. split.
  - intros (result & Hrun).
    destruct (forEach_returned _ _ _ _ _ _ _ Hrun) as (Hlen & Hcov & _).
    split.
    + destruct Hlen as [Hlen | ->]; simpl in *; lia.
    + intros i s p Hs Hp Ht. now apply (Hcov i s p).
  - intros (Hlen & Hcov). apply forEach_completes; [simpl; lia|].
    intros i s p Hs Hp Ht. now apply (Hcov i s p).
Qed.

(** X8. Whenever [enrich] completes, with or without surplus player
    entries, its result holds exactly one enrichment per achieved position
    of the schema, in schema order: the schema's display name,
    description and icon, the unlock date, and the percentage of the first
    rarity entry named after the schema entry. *)
Theorem enrich_result_sound
    (LocalTZA : Z -> Z) (schema : list Schema.t) (players : list Player.t)
    (percentages : list Rarity.t) (result : list Enriched.t) :
  enrich LocalTZA schema players percentages = Return result ->
  Forall2 (enriches LocalTZA percentages)
          (achieved_positions schema players) result.
Proof.
  unfold enrich. intros Hrun.
  destruct (forEach_returned _ _ _ _ _ _ _ Hrun) as (_ & _ & out & -> & Hout).
  exact Hout.
Qed.

Lemma enrich_result_sound_witness :
  Forall2 (enriches UTC demo_rarity)
          (achieved_positions demo_schema
             (demo_achievements ++ [Player.mk "A2" 1 0]))
          [Enriched.mk "Estus Flask" "Acquire Estus Flask." "Tue Nov 14 2023"
             "https://cdn/a1.jpg" (42 # 1)].
Proof.
  apply (enrich_result_sound UTC demo_schema
           (demo_achievements ++ [Player.mk "A2" 1 0]) demo_rarity).
  reflexivity.
Defined.

Lemma forEach_positional (LocalTZA : Z -> Z) (players players' : list Player.t)
    (percentages : list Rarity.t) (rest : list Schema.t) :
  map Player.achieved players = map Player.achieved players' ->
  map Player.unlocktime players = map Player.unlocktime players' ->
  forall (index : nat) (acc : list Enriched.t),
    forEach LocalTZA players percentages index rest acc
    = forEach LocalTZA players' percentages index rest acc.
Proof.
  intros Ha Hu.
  assert (Hat : forall i,
             option_map Player.achieved (nth_error players i)
             = option_map Player.achieved (nth_error players' i))
    by (intros i; now rewrite <- !nth_error_map, Ha).
  assert (Hut : forall i,
             option_map Player.unlocktime (nth_error players i)
             = option_map Player.unlocktime (nth_error players' i))
    by (intros i; now rewrite <- !nth_error_map, Hu).
  induction rest as [|s rest IH]; intros index acc; simpl; [reflexivity|].
  specialize (Hat index). specialize (Hut index).
  destruct (nth_error players index) as [p|],
           (nth_error players' index) as [p'|];
    simpl in *; try discriminate; [|reflexivity].
  injection Hat as Hat. injection Hut as Hut. rewrite <- Hat.
  destruct (truthy (Player.achieved p)); [|apply IH].
  destruct (find_percentage percentages s) as [r|]; simpl; [|reflexivity].
  unfold resultAchievement. rewrite <- Hut. apply IH.
Qed.

(** X9. The correlation between schema and player entries is purely
    positional: [enrich] never looks at a player entry's [apiname], so two
    player sequences with the same [achieved] flags and unlock times at
    every position give the same outcome, whatever identifiers they
    carry. *)
Theorem enrich_ignores_player_apiname
    (LocalTZA : Z -> Z) (schema : list Schema.t) (players players' : list Player.t)
    (percentages : list Rarity.t) :
  map Player.achieved players = map Player.achieved players' ->
  map Player.unlocktime players = map Player.unlocktime players' ->
  enrich LocalTZA schema players percentages
  = enrich LocalTZA schema players' percentages.
Proof.
  intros Ha Hu. unfold enrich. now apply forEach_positional.
Qed.

Lemma enrich_ignores_player_apiname_witness :
  enrich UTC demo_schema demo_achievements demo_rarity
  = enrich UTC demo_schema
      [Player.mk "A1" 0 0; Player.mk "A0" 1 1700000000] demo_rarity.
Proof.
  apply (enrich_ignores_player_apiname UTC demo_schema demo_achievements
           [Player.mk "A1" 0 0; Player.mk "A0" 1 1700000000] demo_rarity);
    reflexivity.
Defined.

Lemma find_percentage_permutation (percentages percentages' : list Rarity.t)
    (s : Schema.t) :
  NoDup (map Rarity.name percentages) ->
  Permutation percentages percentages' ->
  find_percentage percentages s = find_percentage percentages' s.
Proof.
  intros Hnd Hperm.
  assert (Hfirst : forall l r,
             NoDup (map Rarity.name l) -> In r l ->
             Rarity.name r = Schema.name s ->
             find_percentage l s = Some r).
  { unfold find_percentage.
    induction l as [|x l IH]; simpl; intros r Hl Hin Hname; [contradiction|].
    inversion Hl as [|? ? Hx Hrest]; subst.
    destruct Hin as [->|Hin].
    - now rewrite Hname, String.eqb_refl.
    - destruct (String.eqb_spec (Rarity.name x) (Schema.name s)) as [E|_].
      + exfalso. apply Hx. rewrite E, <- Hname. now apply in_map.
      + now apply IH. }
  assert (Hnd' : NoDup (map Rarity.name percentages')).
  { apply (Permutation_NoDup (l := map Rarity.name percentages));
      [now apply Permutation_map | assumption]. }
  destruct (find_percentage percentages s) as [r|] eqn:E.
  - destruct (find_percentage_covers percentages s r E) as [Hin Hname].
    symmetry. apply Hfirst; auto. now apply (Permutation_in r Hperm).
  - destruct (find_percentage percentages' s) as [r'|] eqn:E'; [|reflexivity].
    destruct (find_percentage_covers percentages' s r' E') as [Hin Hname].
    apply (Permutation_in r' (Permutation_sym Hperm)) in Hin.
    rewrite (Hfirst percentages r' Hnd Hin Hname) in E. discriminate.
Qed.

(** X10. When the names of the rarity table are pairwise distinct, the
    order of its entries does not matter: any rearrangement of the table
    gives the same outcome. *)
Theorem enrich_rarity_permutation
    (LocalTZA : Z -> Z) (schema : list Schema.t) (players : list Player.t)
    (percentages percentages' : list Rarity.t) :
  NoDup (map Rarity.name percentages) ->
  Permutation percentages percentages' ->
  enrich LocalTZA schema players percentages
  = enrich LocalTZA schema players percentages'.
Proof.
  intros Hnd Hperm. unfold enrich. generalize 0%nat (@nil Enriched.t).
  induction schema as [|s schema IH]; intros index acc; simpl; [reflexivity|].
  rewrite <- (find_percentage_permutation percentages percentages' s Hnd Hperm).
  destruct (nth_error players index) as [p|]; simpl; [|reflexivity].
  destruct (truthy (Player.achieved p)); [|apply IH].
  destruct (find_percentage percentages s) as [r|]; simpl; [apply IH | reflexivity].
Qed.

Lemma enrich_rarity_permutation_witness :
  enrich UTC demo_schema demo_achievements demo_rarity
  = enrich UTC demo_schema demo_achievements
      [Rarity.mk "A1" (42 # 1); Rarity.mk "A0" (10 # 1)].
Proof.
  apply (enrich_rarity_permutation UTC demo_schema demo_achievements
           demo_rarity [Rarity.mk "A1" (42 # 1); Rarity.mk "A0" (10 # 1)]).
  - simpl. repeat constructor; simpl; intuition discriminate.
  - apply perm_swap.
Defined.

(** ** Owned games: the whole listing *)

(** X11. With a successful upstream answer whose [game_count] is not 0,
    the listing has one item per upstream game, in upstream order; each
    item copies the game's name and appid and carries one of the four
    frontend ids. *)
Theorem owned_games_listing
    (response : Response OwnedGames) (gs : list Game.t) :
  ok response = true ->
  game_count (payload response) <> Some 0 ->
  games (payload response) = Some gs ->
  exists items,
    owned_games_route response = Sent 200 (JArr items) /\
    Forall2 (fun game item =>
               exists id,
                 In id frontend_ids /\
                 item = JObj [("id", JStr id);
                              ("name", JStr (Game.name game));
                              ("appid", JNum (inject_Z (Game.appid game)))])
            gs items.
Proof.
  intros Hok Hcount Hgames.
  exists (map newGame gs). split.
  - unfold owned_games_route. rewrite Hok, Hgames. simpl.
    rewrite push_all. simpl.
    destruct (game_count (payload response)) as [[| |]|]; try reflexivity.
    now elim Hcount.
  - clear. induction gs as [|g gs IH]; simpl; constructor; [|exact IH].
    exists (frontend_id (Game.name g)). split; [|reflexivity].
    unfold frontend_id, frontend_ids.
    destruct (String.eqb (Game.name g) DSR_title); [simpl; auto|].
    destruct (String.eqb (Game.name g) DS2_title); [simpl; auto|].
    destruct (String.eqb (Game.name g) DS3_title); simpl; auto.
Qed.

Lemma owned_games_listing_witness :
  exists items,
    owned_games_route
      (mkResponse 200
         (mkOwned None (Some [Game.mk "DARK SOULS™: REMASTERED" 570940;
                              Game.mk "ELDEN RING" 1245620])))
    = Sent 200 (JArr items) /\
    Forall2 (fun game item =>
               exists id,
                 In id frontend_ids /\
                 item = JObj [("id", JStr id);
                              ("name", JStr (Game.name game));
                              ("appid", JNum (inject_Z (Game.appid game)))])
            [Game.mk "DARK SOULS™: REMASTERED" 570940;
             Game.mk "ELDEN RING" 1245620] items.
Proof.
  apply (owned_games_listing
           (mkResponse 200
              (mkOwned None (Some [Game.mk "DARK SOULS™: REMASTERED" 570940;
                                   Game.mk "ELDEN RING" 1245620])))
           [Game.mk "DARK SOULS™: REMASTERED" 570940;
            Game.mk "ELDEN RING" 1245620]);
    simpl; try reflexivity; discriminate.
Defined.

(** X12. With a successful upstream answer, a [game_count] of 0 gives the
    empty listing even when games are present, and an answer without the
    [games] key whose [game_count] is not 0 (a private profile has
    neither key) makes the handler throw instead of answering. *)
Theorem owned_games_edges (response : Response OwnedGames) :
  ok response = true ->
  (game_count (payload response) = Some 0 ->
   owned_games_route response = Sent 200 (JArr [])) /\
  (game_count (payload response) <> Some 0 ->
   games (payload response) = None ->
   owned_games_route response
   = Next (TypeError "Cannot read properties of undefined (reading 'forEach')")).
Proof.
  intros Hok. unfold owned_games_route. rewrite Hok. simpl. split.
  - now intros ->.
  - intros Hcount ->.
    destruct (game_count (payload response)) as [[| |]|]; try reflexivity.
    now elim Hcount.
Qed.

Lemma owned_games_edges_witness :
  (game_count (mkOwned None None) = Some 0 ->
   owned_games_route (mkResponse 200 (mkOwned None None)) = Sent 200 (JArr [])) /\
  (game_count (mkOwned None None) <> Some 0 ->
   games (mkOwned None None) = None ->
   owned_games_route (mkResponse 200 (mkOwned None None))
   = Next (TypeError "Cannot read properties of undefined (reading 'forEach')")).
Proof.
  apply (owned_games_edges (mkResponse 200 (mkOwned None None))).
  reflexivity.
Defined.

(** ** User profile: what the steamid check lets through *)

Lemma read_digits_started (R : Z) (s : string) :
  forall v, exists v', read_digits R s (Some v) = Some v'.
Proof.
  induction s as [|c s IH]; intros v; simpl; [eauto|].
  destruct (radix_digit R c); [apply IH | eauto].
Qed.

Lemma parseInt_leading_digit (c : ascii) (rest : string) :
  leading_digit c = true ->
  exists v, parseInt (String c rest) = Some v.
Proof.
  intros Hc.
  assert (Hcases : In c ["1"; "2"; "3"; "4"; "5"; "6"; "7"; "8"; "9"]%char).
  { destruct c as [[] [] [] [] [] [] [] []]; try discriminate Hc;
      simpl; auto 10. }
  assert (Htrim : trimStart (String c rest) = String c rest).
  { simpl in Hcases.
    repeat (destruct Hcases as [<-|Hcases]; [now destruct rest as [|b [|d r]]|]).
    contradiction. }
  unfold parseInt. rewrite Htrim.
  simpl in Hcases.
  repeat (destruct Hcases as [<-|Hcases];
          [simpl;
           match goal with
           | |- context [read_digits ?R rest (Some ?v)] =>
               destruct (read_digits_started R rest v) as (v' & ->)
           end; simpl; eauto|]).
  contradiction.
Qed.

Lemma parseInt_never_numeric (c : ascii) (rest : string) :
  never_numeric c = true -> parseInt (String c rest) = None.
Proof.
  intros Hc.
  destruct c as [[] [] [] [] [] [] [] []]; try discriminate Hc;
    destruct rest as [|b [|d r]]; reflexivity.
Qed.

(** X13. A steamid whose first character is an ASCII character other than
    white space, a sign or a decimal digit is refused with status 400 and
    the message "Invalid SteamID", whatever upstream would have answered;
    so is the empty steamid. *)
Theorem user_profile_refuses
    (steamid : string) (response : Response (list Profile.t)) :
  (steamid = "" \/
   exists c rest, steamid = String c rest /\ never_numeric c = true) ->
  user_profile_route steamid response
  = Sent 400 (JObj [("error", JBool true); ("message", JStr "Invalid SteamID")]).
Proof.
  intros [-> | (c & rest & -> & Hc)]; [reflexivity|].
  unfold user_profile_route.
  now rewrite (parseInt_never_numeric c rest Hc).
Qed.

Lemma user_profile_refuses_witness :
  user_profile_route "STEAM_0:1:69683031" (mkResponse 200 [Profile.mk "p" "a"])
  = Sent 400 (JObj [("error", JBool true); ("message", JStr "Invalid SteamID")]).
Proof.
  apply (user_profile_refuses "STEAM_0:1:69683031"
           (mkResponse 200 [Profile.mk "p" "a"])).
  right. exists "S"%char, "TEAM_0:1:69683031". split; reflexivity.
Defined.

(** X14. The steamid check reads only the start of the string: a steamid
    beginning with a digit from 1 to 9 passes whatever follows it.  The
    outcome is then upstream's: a failed fetch is relayed with its status,
    an empty [players] array gives 404 with the steamid in the message,
    and otherwise the answer is 200 with the steamid echoed as received
    and the first player's [personaname] and [avatarmedium]. *)
Theorem user_profile_digit_led
    (c : ascii) (rest : string) (response : Response (list Profile.t)) :
  leading_digit c = true ->
  (ok response = false ->
   user_profile_route (String c rest) response
   = Sent (status response) (snd (failed_fetch (status response)))) /\
  (ok response = true -> payload response = [] ->
   user_profile_route (String c rest) response
   = Sent 404
       (JObj [("error", JBool true);
              ("message",
               JStr ("User with steamid " ++ String c rest ++ " not found")%string)])) /\
  (forall user others,
      ok response = true -> payload response = user :: others ->
      user_profile_route (String c rest) response
      = Sent 200
          (JObj [("steamid", JStr (String c rest));
                 ("personaname", JStr (Profile.personaname user));
                 ("avatarmedium", JStr (Profile.avatarmedium user))])).
Proof.
  intros Hc.
  destruct (parseInt_leading_digit c rest Hc) as (v & Hv).
  unfold user_profile_route. rewrite Hv.
  change (String.eqb (String c rest) "") with false. simpl.
  repeat split.
  - now intros ->.
  - now intros -> ->.
  - now intros user others -> ->.
Qed.

Lemma user_profile_digit_led_witness :
  (ok (mkResponse 200 [Profile.mk "Solaire" "https://avatars/s.jpg"]) = false ->
   user_profile_route "7; drop" (mkResponse 200 [Profile.mk "Solaire" "https://avatars/s.jpg"])
   = Sent 200 (snd (failed_fetch 200))) /\
  (ok (mkResponse 200 [Profile.mk "Solaire" "https://avatars/s.jpg"]) = true ->
   [Profile.mk "Solaire" "https://avatars/s.jpg"] = [] ->
   user_profile_route "7; drop" (mkResponse 200 [Profile.mk "Solaire" "https://avatars/s.jpg"])
   = Sent 404
       (JObj [("error", JBool true);
              ("message", JStr "User with steamid 7; drop not found")])) /\
  (forall user others,
      ok (mkResponse 200 [Profile.mk "Solaire" "https://avatars/s.jpg"]) = true ->
      [Profile.mk "Solaire" "https://avatars/s.jpg"] = user :: others ->
      user_profile_route "7; drop" (mkResponse 200 [Profile.mk "Solaire" "https://avatars/s.jpg"])
      = Sent 200
          (JObj [("steamid", JStr "7; drop");
                 ("personaname", JStr (Profile.personaname user));
                 ("avatarmedium", JStr (Profile.avatarmedium user))])).
Proof.
  apply (user_profile_digit_led "7"%char "; drop"
           (mkResponse 200 [Profile.mk "Solaire" "https://avatars/s.jpg"])).
  reflexivity.
Defined.

(** ** Playtime *)

(** X15. With a successful upstream answer that has no first game (the
    [games] key is absent or its array is empty, as for a game the player
    does not own), the playtime handler throws a [TypeError] and sends no
    response. *)
Theorem playtime_without_game
    (hours : Z -> string) (response : Response (option (list Played.t))) :
  ok response = true ->
  payload response = None \/ payload response = Some [] ->
  exists msg, playtime_route hours response = Next (TypeError msg).
Proof.
  intros Hok Hnone. unfold playtime_route. rewrite Hok. simpl.
  destruct Hnone as [-> | ->]; simpl; eauto.
Qed.

Lemma playtime_without_game_witness :
  exists msg,
    playtime_route show_Z (mkResponse 200 (Some [])) = Next (TypeError msg).
Proof.
  apply (playtime_without_game show_Z (mkResponse 200 (Some []))).
  - reflexivity.
  - right. reflexivity.
Defined.

(** X16. With a successful upstream answer the playtime handler reads the
    first game only.  [playtime_forever] is always the formatted string;
    [playtime_2weeks] is the formatted string when the upstream value is
    present and not 0, and the number 0 (not a string) when it is absent
    or 0. *)
Theorem playtime_two_weeks
    (hours : Z -> string) (response : Response (option (list Played.t)))
    (game : Played.t) (others : list Played.t) :
  ok response = true ->
  payload response = Some (game :: others) ->
  playtime_route hours response
  = Sent 200
      (JObj [("data",
              JObj [("playtime_forever",
                     JStr (hours (Played.playtime_forever game)));
                    ("playtime_2weeks",
                     match Played.playtime_2weeks game with
                     | Some 0 | None => JNum 0
                     | Some recent => JStr (hours recent)
                     end)])]).
Proof.
  intros Hok Hgames. unfold playtime_route. rewrite Hok, Hgames. simpl.
  destruct (Played.playtime_2weeks game) as [[| |]|]; reflexivity.
Qed.

Lemma playtime_two_weeks_witness :
  playtime_route show_Z
    (mkResponse 200 (Some [Played.mk 4206 None; Played.mk 1612 (Some 1612)]))
  = Sent 200
      (JObj [("data",
              JObj [("playtime_forever", JStr (show_Z 4206));
                    ("playtime_2weeks", JNum 0)])]).
Proof.
  apply (playtime_two_weeks show_Z
           (mkResponse 200 (Some [Played.mk 4206 None; Played.mk 1612 (Some 1612)]))
           (Played.mk 4206 None) [Played.mk 1612 (Some 1612)]);
    reflexivity.
Defined.

(** ** Calendar dates *)

Lemma leap_cases (y : Z) :
  (leapZ y = 1 /\ y mod 4 = 0 /\ (y mod 100 <> 0 \/ y mod 400 = 0)) \/
  (leapZ y = 0 /\ (y mod 4 <> 0 \/ (y mod 100 = 0 /\ y mod 400 <> 0))).
Proof.
  unfold leapZ, InLeapYear.
  destruct (Z.eqb_spec (y mod 4) 0), (Z.eqb_spec (y mod 100) 0),
           (Z.eqb_spec (y mod 400) 0); simpl; (left + right); Z.div_mod_to_equations; lia.
Qed.

Lemma year_of_era (doe : Z) :
  0 <= doe < 146097 ->
  let yoe := (doe - doe / 1460 + doe / 36524 - doe / 146096) / 365 in
  let doy := doe - (365 * yoe + yoe / 4 - yoe / 100) in
  0 <= yoe <= 399 /\ 0 <= doy <= 365 /\
  (doy = 365 -> (yoe + 1) mod 4 = 0 /\ ((yoe + 1) mod 100 <> 0 \/ yoe = 399)).
Proof.
  intros H yoe doy. subst yoe doy.
  (Z.div_mod_to_equations; lia).
Qed.

Lemma march_first (yoe era : Z) :
  0 <= yoe <= 399 ->
  DayFromYear (yoe + era * 400) + 59 + leapZ (yoe + era * 400)
  = era * 146097 + (365 * yoe + yoe / 4 - yoe / 100) - 719468.
Proof.
  intros H. unfold DayFromYear.
  destruct (leap_cases (yoe + era * 400)) as [(E & H4 & H100) | (E & H4)]; rewrite E;
    (Z.div_mod_to_equations; lia).
Qed.

Lemma january_first (yoe era : Z) :
  0 <= yoe <= 399 ->
  DayFromYear (yoe + era * 400 + 1)
  = era * 146097 + (365 * yoe + yoe / 4 - yoe / 100) - 719468 + 306.
Proof.
  intros H. unfold DayFromYear.
  (Z.div_mod_to_equations; lia).
Qed.

Lemma february_length (yoe era : Z) :
  0 <= yoe <= 399 ->
  (leapZ (yoe + era * 400 + 1) = 1 <->
   (yoe + 1) mod 4 = 0 /\ ((yoe + 1) mod 100 <> 0 \/ yoe = 399)).
Proof.
  intros H.
  destruct (leap_cases (yoe + era * 400 + 1)) as [(E & H4 & H100) | (E & H4)]; rewrite E;
    (Z.div_mod_to_equations; lia).
Qed.

Lemma month_range (doy mp : Z) :
  0 <= doy <= 365 -> mp = (5 * doy + 2) / 153 -> 0 <= mp <= 11.
Proof. intros H ->. Z.div_mod_to_equations. lia. Qed.

Lemma month_day (doy mp d : Z) :
  0 <= doy <= 365 ->
  mp = (5 * doy + 2) / 153 ->
  d = doy - (153 * mp + 2) / 5 + 1 ->
  (mp = 0 /\ doy = 0 + (d - 1) /\ 1 <= d <= 31) \/
  (mp = 1 /\ doy = 31 + (d - 1) /\ 1 <= d <= 30) \/
  (mp = 2 /\ doy = 61 + (d - 1) /\ 1 <= d <= 31) \/
  (mp = 3 /\ doy = 92 + (d - 1) /\ 1 <= d <= 30) \/
  (mp = 4 /\ doy = 122 + (d - 1) /\ 1 <= d <= 31) \/
  (mp = 5 /\ doy = 153 + (d - 1) /\ 1 <= d <= 31) \/
  (mp = 6 /\ doy = 184 + (d - 1) /\ 1 <= d <= 30) \/
  (mp = 7 /\ doy = 214 + (d - 1) /\ 1 <= d <= 31) \/
  (mp = 8 /\ doy = 245 + (d - 1) /\ 1 <= d <= 30) \/
  (mp = 9 /\ doy = 275 + (d - 1) /\ 1 <= d <= 31) \/
  (mp = 10 /\ doy = 306 + (d - 1) /\ 1 <= d <= 31) \/
  (mp = 11 /\ doy = 337 + (d - 1) /\ 1 <= d <= 29 /\ (d = 29 -> doy = 365)).
Proof.
  intros H Hmp Hd.
  pose proof (month_range doy mp H Hmp) as Hr.
  assert (Hm : 153 * mp <= 5 * doy + 2 < 153 * mp + 153)
    by (subst mp; Z.div_mod_to_equations; lia).
  clear Hmp.
  assert (Hc : mp = 0 \/ mp = 1 \/ mp = 2 \/ mp = 3 \/ mp = 4 \/ mp = 5 \/ mp = 6
               \/ mp = 7 \/ mp = 8 \/ mp = 9 \/ mp = 10 \/ mp = 11) by lia.
  repeat (destruct Hc as [Hc | Hc]); subst mp; cbn in Hd; lia.
Qed.

Ltac month_number :=
  match goal with
  | |- context [if ?k <? 10 then ?a else ?b] =>
      let v := eval vm_compute in (if k <? 10 then a else b) in
      change (if k <? 10 then a else b) with v
  end;
  match goal with
  | |- context [if ?m <=? 2 then 1 else 0] =>
      let v := eval vm_compute in (if m <=? 2 then 1 else 0) in
      change (if m <=? 2 then 1 else 0) with v
  end;
  unfold DayOfDate, DaysBeforeMonth, DaysInMonth;
  cbv beta iota zeta delta [Z.eqb Pos.eqb orb];
  rewrite ?Z.add_0_r;
  repeat match goal with
         | |- context [if InLeapYear ?y then 1 else 0] => fold (leapZ y)
         end.

Theorem civil_is_calendar_date (day : Z) :
  let '(y, m, d) := civil day in
  1 <= m <= 12 /\ 1 <= d <= DaysInMonth y m /\ DayOfDate y m d = day.
Proof.
  unfold civil.
  set (z := day + 719468).
  set (era := z / 146097).
  set (doe := z - era * 146097).
  set (yoe := (doe - doe / 1460 + doe / 36524 - doe / 146096) / 365).
  set (doy := doe - (365 * yoe + yoe / 4 - yoe / 100)).
  set (mp := (5 * doy + 2) / 153).
  set (d := doy - (153 * mp + 2) / 5 + 1).
  assert (Hdoe : 0 <= doe < 146097)
    by (subst doe era; Z.div_mod_to_equations; lia).
  assert (Hz : day = era * 146097 + doe - 719468) by (subst doe z; lia).
  destruct (year_of_era doe Hdoe) as (Hyoe & Hdoy & Hlast).
  fold yoe in Hyoe, Hdoy, Hlast. fold doy in Hdoy, Hlast.
  assert (Hstart : doe = 365 * yoe + yoe / 4 - yoe / 100 + doy)
    by (subst doy; lia).
  pose proof (month_day doy mp d Hdoy eq_refl eq_refl) as Hmonth.
  pose proof (march_first yoe era Hyoe) as Hmar.
  pose proof (january_first yoe era Hyoe) as Hjan.
  pose proof (february_length yoe era Hyoe) as Hfeb.
  clearbody d mp doy yoe doe era. clear z.
  destruct Hmonth as
    [(-> & Hd & Hr) | [(-> & Hd & Hr) | [(-> & Hd & Hr) | [(-> & Hd & Hr)
    | [(-> & Hd & Hr) | [(-> & Hd & Hr) | [(-> & Hd & Hr) | [(-> & Hd & Hr)
    | [(-> & Hd & Hr) | [(-> & Hd & Hr) | [(-> & Hd & Hr)
    | (-> & Hd & Hr & Hleap)]]]]]]]]]]];
    month_number; try lia.
  unfold leapZ in Hfeb.
  destruct (InLeapYear (yoe + era * 400 + 1)); lia.
Qed.
